(** * Lake Formation permissions: locator comparison, expansion and the
      Create / Read / Delete reconciliation of
      [aws/resource_aws_lakeformation_permissions.go]. *)

From stdpp Require Import base option list gmap strings.
From Stdlib Require Import Ascii Lia.

Set Warnings "-register-all".

Local Open Scope string_scope.
Local Open Scope list_scope.

(* ===================================================================== *)
(** * Wire-level locator types *)
(* ===================================================================== *)

(** A Go [*string] is [option string] ([None] is [nil]).  A Go [[]*string]
    whose nil-ness matters to [reflect.DeepEqual] is [option (list string)]:
    [None] is the nil slice, [Some []] the empty non-nil slice; its elements
    come from [aws.String] or from decoded string arrays and are never nil. *)

(** Modelled from the spec: the struct declarations of the AWS SDK package
    [lakeformation] (CatalogResource, DataLocationResource, DatabaseResource,
    TableResource, TableWildcard, TableWithColumnsResource, ColumnWildcard and
    Resource) are not part of the repository sources; the fields are the ones
    the source reads and writes, shaped as in section 3 of the spec. *)
Inductive CatalogResource := mkCatalogResource.

Inductive TableWildcard := mkTableWildcard.

Module DataLocationResource.
Record t := mk { CatalogId : option string; ResourceArn : option string }.
Definition setCatalogId (c : option string) (x : t) : t :=
  mk c (ResourceArn x).
End DataLocationResource.

Module DatabaseResource.
Record t := mk { CatalogId : option string; Name : option string }.
Definition setCatalogId (c : option string) (x : t) : t :=
  mk c (Name x).
End DatabaseResource.

Module TableResource.
Record t := mk {
  CatalogId : option string;
  DatabaseName : option string;
  Name : option string;
  TableWildcard_ : option TableWildcard }.
Definition setCatalogId (c : option string) (x : t) : t :=
  mk c (DatabaseName x) (Name x) (TableWildcard_ x).
End TableResource.

Module ColumnWildcard.
Record t := mk { ExcludedColumnNames : option (list string) }.
End ColumnWildcard.

Module TableWithColumnsResource.
Record t := mk {
  CatalogId : option string;
  ColumnNames : option (list string);
  ColumnWildcard_ : option ColumnWildcard.t;
  DatabaseName : option string;
  Name : option string }.
Definition setCatalogId (c : option string) (x : t) : t :=
  mk c (ColumnNames x) (ColumnWildcard_ x) (DatabaseName x) (Name x).
End TableWithColumnsResource.

(** [lakeformation.Resource] with every pointer field dereferenced: the
    value a [Resource] struct denotes in a given store. *)
Record Resource := mkResource {
  Catalog : option CatalogResource;
  DataLocation : option DataLocationResource.t;
  Database : option DatabaseResource.t;
  Table : option TableResource.t;
  TableWithColumns : option TableWithColumnsResource.t }.

#[global] Instance CatalogResource_eq_dec : EqDecision CatalogResource.
Proof. solve_decision. Defined.
#[global] Instance TableWildcard_eq_dec : EqDecision TableWildcard.
Proof. solve_decision. Defined.
#[global] Instance DataLocationResource_eq_dec : EqDecision DataLocationResource.t.
Proof. solve_decision. Defined.
#[global] Instance DatabaseResource_eq_dec : EqDecision DatabaseResource.t.
Proof. solve_decision. Defined.
#[global] Instance TableResource_eq_dec : EqDecision TableResource.t.
Proof. solve_decision. Defined.
#[global] Instance ColumnWildcard_eq_dec : EqDecision ColumnWildcard.t.
Proof. solve_decision. Defined.
#[global] Instance TableWithColumnsResource_eq_dec :
  EqDecision TableWithColumnsResource.t.
Proof. solve_decision. Defined.
#[global] Instance Resource_eq_dec : EqDecision Resource.
Proof. solve_decision. Defined.

(** [reflect.DeepEqual] on two [Resource] values: pointers are deeply equal
    when both are nil or their pointees are deeply equal, strings when equal,
    slices when both are nil or both non-nil with deeply equal elements.  On
    the dereferenced values that is structural equality. *)
Definition reflect_DeepEqual (a b : Resource) : bool := bool_decide (a = b).

(* ===================================================================== *)
(** * resourceAwsLakeFormationPermissionsCompareResource *)
(* ===================================================================== *)

(** One default-fill statement of the comparison,
    [if in.X != nil && out.X != nil && in.X.CatalogId == nil
       { in.X.CatalogId = out.X.CatalogId }],
    as its effect on the object [in.X] points to. *)
Definition fillCatalogId {A : Type} (getCat : A → option string)
    (setCat : option string → A → A) (inX outX : option A) : option A :=
  match inX, outX with
  | Some i, Some o =>
      match getCat i with
      | None => Some (setCat (getCat o) i)
      | Some _ => Some i
      end
  | _, _ => inX
  end.

(** The declared locator after the four default-fill statements.  [in] is a
    by-value copy of the caller's struct, but its four fields are pointers
    shared with the caller, so this is also what the caller's locator denotes
    once the call has returned (see [HeapModel] below, where the sharing is
    explicit). *)
Definition defaultFill (in_ out : Resource) : Resource :=
  mkResource
    (Catalog in_)
    (fillCatalogId DataLocationResource.CatalogId
       DataLocationResource.setCatalogId (DataLocation in_) (DataLocation out))
    (fillCatalogId DatabaseResource.CatalogId
       DatabaseResource.setCatalogId (Database in_) (Database out))
    (fillCatalogId TableResource.CatalogId
       TableResource.setCatalogId (Table in_) (Table out))
    (fillCatalogId TableWithColumnsResource.CatalogId
       TableWithColumnsResource.setCatalogId
       (TableWithColumns in_) (TableWithColumns out)).

(** The comparison: the objects of [in] after the call, and the boolean
    returned. *)
Definition resourceAwsLakeFormationPermissionsCompareResource
    (in_ out : Resource) : Resource * bool :=
  let in' := defaultFill in_ out in
  (in', reflect_DeepEqual in' out).

(** The boolean alone: the spec's [LocatorComparator.Equal]. *)
Definition Equal (a b : Resource) : bool :=
  snd (resourceAwsLakeFormationPermissionsCompareResource a b).

(* ===================================================================== *)
(** * The same comparison over an explicit store *)
(* ===================================================================== *)

(** In Go the four populated fields of a [lakeformation.Resource] are
    pointers.  Passing the struct by value copies the pointers, not the
    objects: an assignment through [in.X] writes the object the caller's
    struct points to as well.  This module keeps the objects in a store and
    the struct as a record of addresses, so that the sharing is derived
    rather than assumed. *)
Module HeapModel.

Record Heap := mkHeap {
  hDataLocation : gmap positive DataLocationResource.t;
  hDatabase : gmap positive DatabaseResource.t;
  hTable : gmap positive TableResource.t;
  hTableWithColumns : gmap positive TableWithColumnsResource.t }.

(** The struct itself: what a by-value parameter copies. *)
Record ResourcePtrs := mkPtrs {
  pCatalog : option CatalogResource;
  pDataLocation : option positive;
  pDatabase : option positive;
  pTable : option positive;
  pTableWithColumns : option positive }.

(** Reading through a pointer field: [Some None] for nil, [None] for an
    address with no object (never the case in a Go program). *)
Definition deref {A : Type} (m : gmap positive A) (p : option positive)
    : option (option A) :=
  match p with
  | None => Some None
  | Some a => match m !! a with Some v => Some (Some v) | None => None end
  end.

(** What a struct denotes in a store. *)
Definition load (h : Heap) (r : ResourcePtrs) : option Resource :=
  match deref (hDataLocation h) (pDataLocation r),
        deref (hDatabase h) (pDatabase r),
        deref (hTable h) (pTable r),
        deref (hTableWithColumns h) (pTableWithColumns r) with
  | Some dl, Some db, Some t, Some twc =>
      Some (mkResource (pCatalog r) dl db t twc)
  | _, _, _, _ => None
  end.

(** One default-fill statement, as a write to the store at the address held
    in [in.X]. *)
Definition fillCell {A : Type} (getCat : A → option string)
    (setCat : option string → A → A) (m : gmap positive A)
    (inX outX : option positive) : gmap positive A :=
  match inX, outX with
  | Some a, Some b =>
      match m !! a, m !! b with
      | Some i, Some o =>
          match getCat i with
          | None => <[a := setCat (getCat o) i]> m
          | Some _ => m
          end
      | _, _ => m
      end
  | _, _ => m
  end.

(** [in] and [out] are the copied structs; the store is the one the caller
    sees.  Returns the store after the call and the boolean. *)
Definition resourceAwsLakeFormationPermissionsCompareResource
    (h : Heap) (in_ out : ResourcePtrs) : Heap * bool :=
  let h' := mkHeap
    (fillCell DataLocationResource.CatalogId DataLocationResource.setCatalogId
       (hDataLocation h) (pDataLocation in_) (pDataLocation out))
    (fillCell DatabaseResource.CatalogId DatabaseResource.setCatalogId
       (hDatabase h) (pDatabase in_) (pDatabase out))
    (fillCell TableResource.CatalogId TableResource.setCatalogId
       (hTable h) (pTable in_) (pTable out))
    (fillCell TableWithColumnsResource.CatalogId
       TableWithColumnsResource.setCatalogId
       (hTableWithColumns h) (pTableWithColumns in_) (pTableWithColumns out)) in
  (h', bool_decide (load h' in_ = load h' out)).

End HeapModel.

(* ===================================================================== *)
(** * The declared request: schema.ResourceData *)
(* ===================================================================== *)

(** A Go [interface{}] found in a [map[string]interface{}] of the schema
    layer: nil, a string, a bool or a list. *)
Inductive TfValue :=
| VNil
| VString (s : string)
| VBool (b : bool)
| VList (l : list TfValue).

(** A Go function that can panic (index out of range, failed type
    assertion). *)
Inductive go (A : Type) :=
| Ret (a : A)
| Panic.
Arguments Ret {A} a.
Arguments Panic {A}.

Definition go_bind {A B : Type} (x : go A) (k : A → go B) : go B :=
  match x with
  | Ret a => k a
  | Panic => Panic
  end.

Notation "x ←go c ; k" := (go_bind c (fun x => k))
  (at level 100, c at next level, right associativity).

(** Modelled from the spec: [schema.ResourceData] belongs to the schema layer
    and is not part of the repository sources.  It is the validated request
    of section 3 of the spec, one field per schema key, typed as the schema
    of [resourceAwsLakeFormationPermissions] declares them; a nested block is
    a list of map elements, an element being [None] when the interface value
    is nil.  [Id] and [IsNewResource] are the stored handle and the flag the
    caller raises while it runs Create. *)
Record ResourceData := mkResourceData {
  Id : string;
  IsNewResource : bool;
  catalog_id : string;
  catalog_resource : bool;
  data_location : list (option (gmap string TfValue));
  database : list (option (gmap string TfValue));
  permissions : list string;
  permissions_with_grant_option : list string;
  principal : string;
  table : list (option (gmap string TfValue));
  table_with_columns : list (option (gmap string TfValue)) }.

(** [tfMap[k].(string)] in its comma-ok form. *)
Definition assertString (v : option TfValue) : option string :=
  match v with
  | Some (VString s) => Some s
  | _ => None
  end.

(** [tfMap[k].(bool)] in its comma-ok form. *)
Definition assertBool (v : option TfValue) : option bool :=
  match v with
  | Some (VBool b) => Some b
  | _ => None
  end.

(** [if v, ok := tfMap[k].(string); ok && v != "" { field = aws.String(v) }] *)
Definition nonEmptyString (v : option TfValue) : option string :=
  match assertString v with
  | Some s => if decide (s = "") then None else Some s
  | None => None
  end.

(** Modelled from the spec: [expandStringList] is a helper of the repository
    that is not among its sources; it keeps the non-empty strings of a list
    of interface values, in order. *)
Fixpoint expandStringList (configured : list TfValue) : list string :=
  match configured with
  | [] => []
  | VString s :: rest =>
      if decide (s = "") then expandStringList rest
      else s :: expandStringList rest
  | _ :: rest => expandStringList rest
  end.

(** Modelled from the spec: [flattenStringList], the reverse helper. *)
Definition flattenStringList (l : option (list string)) : list TfValue :=
  match l with
  | None => []
  | Some xs => map VString xs
  end.

(** The five variant tags ([lakeformation.DataLakeResourceType*] and the
    local constant). *)
Inductive DataLakeResourceType :=
| DataLakeResourceTypeCatalog
| DataLakeResourceTypeDataLocation
| DataLakeResourceTypeDatabase
| DataLakeResourceTypeTable
| DataLakeResourceTypeTableWithColumns.

Definition DataLakeResourceType_String (t : DataLakeResourceType) : string :=
  match t with
  | DataLakeResourceTypeCatalog => "CATALOG"
  | DataLakeResourceTypeDataLocation => "DATA_LOCATION"
  | DataLakeResourceTypeDatabase => "DATABASE"
  | DataLakeResourceTypeTable => "TABLE"
  | DataLakeResourceTypeTableWithColumns => "TABLE_WITH_COLUMNS"
  end.

(** [v, ok := d.GetOk(k); ok && len(v) > 0 && v[0] != nil] on a block. *)
Definition blockPresent (v : list (option (gmap string TfValue))) : bool :=
  match v with
  | Some _ :: _ => true
  | _ => false
  end.

Definition expandLakeFormationResourceType (d : ResourceData)
    : DataLakeResourceType :=
  if catalog_resource d then DataLakeResourceTypeCatalog
  else if blockPresent (data_location d) then DataLakeResourceTypeDataLocation
  else if blockPresent (database d) then DataLakeResourceTypeDatabase
  else if blockPresent (table d) then DataLakeResourceTypeTable
  else DataLakeResourceTypeTableWithColumns.

(** [d.Get(k).([]interface{})[0].(map[string]interface{})]: panics on an
    empty list and on a nil element. *)
Definition firstMap (v : list (option (gmap string TfValue)))
    : go (gmap string TfValue) :=
  match v with
  | Some m :: _ => Ret m
  | _ => Panic
  end.

Definition expandLakeFormationDataLocationResource
    (tfMap : option (gmap string TfValue)) : option DataLocationResource.t :=
  match tfMap with
  | None => None
  | Some m =>
      Some (DataLocationResource.mk
              (nonEmptyString (m !! "catalog_id"))
              (nonEmptyString (m !! "arn")))
  end.

Definition expandLakeFormationDatabaseResource
    (tfMap : option (gmap string TfValue)) : option DatabaseResource.t :=
  match tfMap with
  | None => None
  | Some m =>
      Some (DatabaseResource.mk
              (nonEmptyString (m !! "catalog_id"))
              (nonEmptyString (m !! "name")))
  end.

Definition expandLakeFormationTableResource
    (tfMap : option (gmap string TfValue)) : option TableResource.t :=
  match tfMap with
  | None => None
  | Some m =>
      Some (TableResource.mk
              (nonEmptyString (m !! "catalog_id"))
              (nonEmptyString (m !! "database_name"))
              (nonEmptyString (m !! "name"))
              (match assertBool (m !! "wildcard") with
               | Some true => Some mkTableWildcard
               | _ => None
               end))
  end.

(** [if v, ok := tfMap[k]; ok && len(v.([]interface{})) > 0 &&
        v.([]interface{})[0] != nil]: [Ret (Some l)] when the guard holds,
    [Ret None] when it does not, [Panic] when the key holds something that
    is not a list. *)
Definition nonEmptyList (v : option TfValue) : go (option (list TfValue)) :=
  match v with
  | None => Ret None
  | Some (VList l) =>
      match l with
      | [] => Ret None
      | VNil :: _ => Ret None
      | _ :: _ => Ret (Some l)
      end
  | Some _ => Panic
  end.

Definition expandLakeFormationTableWithColumnsResource
    (tfMap : option (gmap string TfValue))
    : go (option TableWithColumnsResource.t) :=
  match tfMap with
  | None => Ret None
  | Some m =>
      cols ←go nonEmptyList (m !! "column_names");
      excl ←go nonEmptyList (m !! "excluded_column_names");
      Ret (Some (TableWithColumnsResource.mk
                   (nonEmptyString (m !! "catalog_id"))
                   (expandStringList <$> cols)
                   ((fun l => ColumnWildcard.mk (Some (expandStringList l)))
                      <$> excl)
                   (nonEmptyString (m !! "database_name"))
                   (nonEmptyString (m !! "name"))))
  end.

Definition expandLakeFormationResource (d : ResourceData)
    (squashTableWithColumns : bool) : go Resource :=
  match expandLakeFormationResourceType d with
  | DataLakeResourceTypeCatalog =>
      Ret (mkResource (Some mkCatalogResource) None None None None)
  | DataLakeResourceTypeDataLocation =>
      m ←go firstMap (data_location d);
      Ret (mkResource None (expandLakeFormationDataLocationResource (Some m))
             None None None)
  | DataLakeResourceTypeDatabase =>
      m ←go firstMap (database d);
      Ret (mkResource None None (expandLakeFormationDatabaseResource (Some m))
             None None)
  | DataLakeResourceTypeTable =>
      m ←go firstMap (table d);
      Ret (mkResource None None None
             (expandLakeFormationTableResource (Some m)) None)
  | DataLakeResourceTypeTableWithColumns =>
      if squashTableWithColumns then
        m ←go firstMap (table_with_columns d);
        Ret (mkResource None None None
               (expandLakeFormationTableResource (Some m)) None)
      else
        m ←go firstMap (table_with_columns d);
        twc ←go expandLakeFormationTableWithColumnsResource (Some m);
        Ret (mkResource None None None None twc)
  end.

(** Returns [Ret None] for the nil result. *)
Definition expandLakeFormationResourceForSelectPermissions (d : ResourceData)
    : go (option Resource) :=
  match table d with
  | [] => Ret None
  | None :: _ => Panic
  | Some tableSchema :: _ =>
      match assertString (tableSchema !! "database_name") with
      | None => Ret None
      | Some databaseName =>
          match assertString (tableSchema !! "name") with
          | None => Ret None
          | Some name =>
              Ret (Some (mkResource None None None None
                (Some (TableWithColumnsResource.mk
                         None None
                         (Some (ColumnWildcard.mk None))
                         (Some databaseName) (Some name)))))
          end
      end
  end.

(* ===================================================================== *)
(** * Flattening a remote locator back into request fields *)
(* ===================================================================== *)

(** [if v := apiObject.F; v != nil { tfMap[k] = aws.StringValue(v) }] *)
Definition setIfString (k : string) (v : option string)
    (tfMap : gmap string TfValue) : gmap string TfValue :=
  match v with
  | Some s => <[k := VString s]> tfMap
  | None => tfMap
  end.

Definition flattenLakeFormationDataLocationResource
    (apiObject : option DataLocationResource.t)
    : option (gmap string TfValue) :=
  match apiObject with
  | None => None
  | Some o =>
      Some (setIfString "arn" (DataLocationResource.ResourceArn o)
             (setIfString "catalog_id" (DataLocationResource.CatalogId o) ∅))
  end.

Definition flattenLakeFormationDatabaseResource
    (apiObject : option DatabaseResource.t) : option (gmap string TfValue) :=
  match apiObject with
  | None => None
  | Some o =>
      Some (setIfString "name" (DatabaseResource.Name o)
             (setIfString "catalog_id" (DatabaseResource.CatalogId o) ∅))
  end.

Definition flattenLakeFormationTableResource
    (apiObject : option TableResource.t) : option (gmap string TfValue) :=
  match apiObject with
  | None => None
  | Some o =>
      let tfMap := setIfString "catalog_id" (TableResource.CatalogId o) ∅ in
      let tfMap := setIfString "database_name" (TableResource.DatabaseName o) tfMap in
      let tfMap := setIfString "name" (TableResource.Name o) tfMap in
      Some (match TableResource.TableWildcard_ o with
            | Some _ => <["wildcard" := VBool true]> tfMap
            | None => tfMap
            end)
  end.

Definition flattenLakeFormationTableWithColumnsResource
    (apiObject : option TableWithColumnsResource.t)
    : option (gmap string TfValue) :=
  match apiObject with
  | None => None
  | Some o =>
      let tfMap := setIfString "catalog_id" (TableWithColumnsResource.CatalogId o) ∅ in
      let tfMap := <["column_names" :=
                      VList (flattenStringList (TableWithColumnsResource.ColumnNames o))]> tfMap in
      let tfMap := setIfString "database_name" (TableWithColumnsResource.DatabaseName o) tfMap in
      let tfMap := match TableWithColumnsResource.ColumnWildcard_ o with
                   | Some w => <["excluded_column_names" :=
                        VList (flattenStringList (ColumnWildcard.ExcludedColumnNames w))]> tfMap
                   | None => tfMap
                   end in
      Some (setIfString "name" (TableWithColumnsResource.Name o) tfMap)
  end.

(* ===================================================================== *)
(** * The remote service *)
(* ===================================================================== *)

(** Go [error] values seen by this file: an [awserr.Error] of the remote
    service, any other error of the client, the results of [fmt.Errorf]
    without and with a wrapped cause ([%w]), and [*resource.TimeoutError]. *)
Inductive error :=
| awsError (code message : string)
| clientError (msg : string)
| Errorf (msg : string)
| Wrapf (msg : string) (cause : error)
| TimeoutError.

Definition ErrCodeInvalidInputException := "InvalidInputException".
Definition ErrCodeConcurrentModificationException := "ConcurrentModificationException".
Definition ErrCodeEntityNotFoundException := "EntityNotFoundException".

Fixpoint strings_HasPrefix (s prefix : string) : bool :=
  match prefix with
  | EmptyString => true
  | String c prefix' =>
      match s with
      | EmptyString => false
      | String c' s' => if Ascii.eqb c c' then strings_HasPrefix s' prefix' else false
      end
  end.

Fixpoint strings_Contains (s substr : string) : bool :=
  strings_HasPrefix s substr ||
  match s with
  | EmptyString => false
  | String _ s' => strings_Contains s' substr
  end.

(** [errors.As(err, &awsErr)]: the first [awserr.Error] in the chain. *)
Fixpoint asAwsErr (err : error) : option (string * string) :=
  match err with
  | awsError code message => Some (code, message)
  | Wrapf _ cause => asAwsErr cause
  | _ => None
  end.

(** Modelled from the spec: [isAWSErr] is a helper of the repository that is
    not among its sources; section 6 of the spec: the error code selects the
    kind and a message substring the transient sub-case. *)
Definition isAWSErr (err : error) (code message : string) : bool :=
  match asAwsErr err with
  | Some (c, m) => bool_decide (c = code) && strings_Contains m message
  | None => false
  end.

(** Modelled from the spec: [tfawserr.ErrCodeEquals], false on a nil error. *)
Definition ErrCodeEquals (err : option error) (code : string) : bool :=
  match err with
  | Some e =>
      match asAwsErr e with
      | Some (c, _) => bool_decide (c = code)
      | None => false
      end
  | None => false
  end.

(** Modelled from the spec: [isResourceTimeoutError], true exactly on the
    error [resource.Retry] gives when its budget is exhausted. *)
Definition isResourceTimeoutError (err : option error) : bool :=
  match err with
  | Some TimeoutError => true
  | _ => false
  end.

Record DataLakePrincipal := mkDataLakePrincipal {
  DataLakePrincipalIdentifier : option string }.

Module GrantPermissionsInput.
Record t := mk {
  CatalogId : option string;
  Permissions : list string;
  PermissionsWithGrantOption : list string;
  Principal : DataLakePrincipal;
  Resource_ : Resource }.
End GrantPermissionsInput.

Module RevokePermissionsInput.
Record t := mk {
  CatalogId : option string;
  Permissions : list string;
  PermissionsWithGrantOption : list string;
  Principal : DataLakePrincipal;
  Resource_ : Resource }.
End RevokePermissionsInput.

Module ListPermissionsInput.
Record t := mk {
  CatalogId : option string;
  Principal : DataLakePrincipal;
  Resource_ : Resource }.
End ListPermissionsInput.

Inductive GrantPermissionsOutput := mkGrantPermissionsOutput.

(** Modelled from the spec: a remote permission entry (section 3 of the
    spec); every entry carries its principal and its resource. *)
Module PrincipalResourcePermissions.
Record t := mk {
  Permissions : list string;
  PermissionsWithGrantOption : list string;
  Principal : DataLakePrincipal;
  Resource_ : Resource }.
End PrincipalResourcePermissions.

(** Modelled from the spec: the remote API of section 6 of the spec, as the
    responses the service gives to the successive calls of each operation
    (the first argument counts the earlier calls of that operation).  A List
    response is the pages handed to the callback, each a list of possibly
    nil entries, and the error the paged call ends with. *)
Record Conn := mkConn {
  GrantPermissions :
    nat → GrantPermissionsInput.t → option GrantPermissionsOutput * option error;
  ListPermissionsPages :
    nat → ListPermissionsInput.t →
    list (list (option PrincipalResourcePermissions.t)) * option error;
  RevokePermissions :
    nat → RevokePermissionsInput.t → option error }.

Record AWSClient := mkAWSClient { lakeformationconn : Conn }.

(** How many calls of each remote operation have been made. *)
Record RemoteCalls := mkRemoteCalls {
  grantCalls : nat;
  listCalls : nat;
  revokeCalls : nat }.

(* ===================================================================== *)
(** * RetryPolicy *)
(* ===================================================================== *)

Inductive RetryError :=
| RetryableError (err : error)
| NonRetryableError (err : error).

(** Modelled from the spec: [resource.Retry] belongs to the plugin SDK and is
    not part of the repository sources.  Section 4.4 and the design notes of
    the spec: an explicit bounded loop over a function classified as success
    ([None]), retry or terminal; the time budget is counted in attempts; a
    terminal error is returned at once, and an exhausted budget gives the
    timeout error on which the caller makes its additional attempt. *)
Fixpoint resource_Retry {St : Type} (timeout : nat)
    (f : St → St * option RetryError) (st : St) : St * option error :=
  match timeout with
  | O => (st, Some TimeoutError)
  | S timeout' =>
      let '(st', r) := f st in
      match r with
      | None => (st', None)
      | Some (NonRetryableError err) => (st', Some err)
      | Some (RetryableError _) => resource_Retry timeout' f st'
      end
  end.

(* ===================================================================== *)
(** * d.Set and d.SetId *)
(* ===================================================================== *)

Definition SetId (v : string) (d : ResourceData) : ResourceData :=
  mkResourceData v (IsNewResource d) (catalog_id d) (catalog_resource d)
    (data_location d) (database d) (permissions d)
    (permissions_with_grant_option d) (principal d) (table d)
    (table_with_columns d).

Definition Set_catalog_resource (v : bool) (d : ResourceData) : ResourceData :=
  mkResourceData (Id d) (IsNewResource d) (catalog_id d) v
    (data_location d) (database d) (permissions d)
    (permissions_with_grant_option d) (principal d) (table d)
    (table_with_columns d).

Definition Set_data_location (v : list (option (gmap string TfValue)))
    (d : ResourceData) : ResourceData :=
  mkResourceData (Id d) (IsNewResource d) (catalog_id d) (catalog_resource d)
    v (database d) (permissions d)
    (permissions_with_grant_option d) (principal d) (table d)
    (table_with_columns d).

Definition Set_database (v : list (option (gmap string TfValue)))
    (d : ResourceData) : ResourceData :=
  mkResourceData (Id d) (IsNewResource d) (catalog_id d) (catalog_resource d)
    (data_location d) v (permissions d)
    (permissions_with_grant_option d) (principal d) (table d)
    (table_with_columns d).

Definition Set_permissions (v : list string) (d : ResourceData) : ResourceData :=
  mkResourceData (Id d) (IsNewResource d) (catalog_id d) (catalog_resource d)
    (data_location d) (database d) v
    (permissions_with_grant_option d) (principal d) (table d)
    (table_with_columns d).

Definition Set_permissions_with_grant_option (v : list string)
    (d : ResourceData) : ResourceData :=
  mkResourceData (Id d) (IsNewResource d) (catalog_id d) (catalog_resource d)
    (data_location d) (database d) (permissions d)
    v (principal d) (table d)
    (table_with_columns d).

Definition Set_principal (v : option string) (d : ResourceData) : ResourceData :=
  mkResourceData (Id d) (IsNewResource d) (catalog_id d) (catalog_resource d)
    (data_location d) (database d) (permissions d)
    (permissions_with_grant_option d) (default "" v) (table d)
    (table_with_columns d).

Definition Set_table (v : list (option (gmap string TfValue)))
    (d : ResourceData) : ResourceData :=
  mkResourceData (Id d) (IsNewResource d) (catalog_id d) (catalog_resource d)
    (data_location d) (database d) (permissions d)
    (permissions_with_grant_option d) (principal d) v
    (table_with_columns d).

Definition Set_table_with_columns (v : list (option (gmap string TfValue)))
    (d : ResourceData) : ResourceData :=
  mkResourceData (Id d) (IsNewResource d) (catalog_id d) (catalog_resource d)
    (data_location d) (database d) (permissions d)
    (permissions_with_grant_option d) (principal d) (table d)
    v.

(** [if v, ok := d.GetOk("catalog_id"); ok { input.CatalogId = aws.String(v) }]:
    [ok] is false on the zero value. *)
Definition GetOk_catalog_id (d : ResourceData) : option string :=
  if decide (catalog_id d = "") then None else Some (catalog_id d).

(** [d.Get(k).([]interface{})] on a list of strings. *)
Definition Get_strings (l : list string) : list TfValue := map VString l.

(** [if v, ok := d.GetOk("permissions_with_grant_option"); ok
       { input.PermissionsWithGrantOption = expandStringList(v) }] *)
Definition GetOk_permissions_with_grant_option (d : ResourceData) : list string :=
  match permissions_with_grant_option d with
  | [] => []
  | l => expandStringList (Get_strings l)
  end.

(* ===================================================================== *)
(** * flattenLakeFormationPermissions, flattenLakeFormationGrantPermissions *)
(* ===================================================================== *)

(** The two nested loops: every permission of every entry, appended in
    order.  [aws.StringValue] is the identity on the non-nil elements; the
    nil slice, for which the source returns nil, is the empty list here, as
    is the empty result. *)
Fixpoint flattenLakeFormationPermissions
    (apiObjects : list PrincipalResourcePermissions.t) : list string :=
  match apiObjects with
  | [] => []
  | resourcePermission :: rest =>
      PrincipalResourcePermissions.Permissions resourcePermission
        ++ flattenLakeFormationPermissions rest
  end.

Fixpoint flattenLakeFormationGrantPermissions
    (apiObjects : list PrincipalResourcePermissions.t) : list string :=
  match apiObjects with
  | [] => []
  | resourcePermission :: rest =>
      PrincipalResourcePermissions.PermissionsWithGrantOption resourcePermission
        ++ flattenLakeFormationGrantPermissions rest
  end.

(* ===================================================================== *)
(** * GrantController: Create, Read, Delete *)
(* ===================================================================== *)

Definition incGrant (w : RemoteCalls) : RemoteCalls :=
  mkRemoteCalls (S (grantCalls w)) (listCalls w) (revokeCalls w).
Definition incList (w : RemoteCalls) : RemoteCalls :=
  mkRemoteCalls (grantCalls w) (S (listCalls w)) (revokeCalls w).
Definition incRevoke (w : RemoteCalls) : RemoteCalls :=
  mkRemoteCalls (grantCalls w) (listCalls w) (S (revokeCalls w)).

(** The variables the two closures of Read capture: the objects behind
    [matchResource] and [selectPermissionsResource] (written by the
    comparison), the slice of retained entries, and the call counter. *)
Record readState := mkReadState {
  matchResource : Resource;
  selectPermissionsResource : option Resource;
  principalResourcePermissions : list PrincipalResourcePermissions.t;
  readCalls : RemoteCalls }.

(** The body of [for _, permission := range resp.PrincipalResourcePermissions]. *)
Definition retainEntry (st : readState)
    (permission : option PrincipalResourcePermissions.t) : readState :=
  match permission with
  | None => st
  | Some p =>
      let '(m', matched) :=
        resourceAwsLakeFormationPermissionsCompareResource
          (matchResource st) (PrincipalResourcePermissions.Resource_ p) in
      if matched then
        mkReadState m' (selectPermissionsResource st)
          (principalResourcePermissions st ++ [p]) (readCalls st)
      else
        match selectPermissionsResource st with
        | None =>
            mkReadState m' None (principalResourcePermissions st) (readCalls st)
        | Some sel =>
            let '(sel', matched') :=
              resourceAwsLakeFormationPermissionsCompareResource
                sel (PrincipalResourcePermissions.Resource_ p) in
            mkReadState m' (Some sel')
              (if matched' then principalResourcePermissions st ++ [p]
               else principalResourcePermissions st)
              (readCalls st)
        end
  end.

(** The page callback, which always asks for the next page. *)
Definition retainPage (st : readState)
    (resp : list (option PrincipalResourcePermissions.t)) : readState :=
  fold_left retainEntry resp st.

(** One [conn.ListPermissionsPages(input, callback)]. *)
Definition listPermissionsOnce (conn : Conn) (input : ListPermissionsInput.t)
    (st : readState) : readState * option error :=
  let '(pages, err) := ListPermissionsPages conn (listCalls (readCalls st)) input in
  let st' := fold_left retainPage pages st in
  (mkReadState (matchResource st') (selectPermissionsResource st')
     (principalResourcePermissions st') (incList (readCalls st')), err).

Definition classifyListError (err : option error) : option RetryError :=
  match err with
  | None => None
  | Some e =>
      if isAWSErr e ErrCodeInvalidInputException "Invalid principal"
      then Some (RetryableError e)
      else Some (NonRetryableError
                   (Wrapf "error creating Lake Formation Permissions" e))
  end.

(** The first matched entry's locator written back into the request. *)
Definition setLocatorFields (r : Resource) (d : ResourceData) : ResourceData :=
  let d := match Catalog r with
           | Some _ => Set_catalog_resource true d
           | None => d
           end in
  let d := match DataLocation r with
           | Some o => Set_data_location
                         [flattenLakeFormationDataLocationResource (Some o)] d
           | None => Set_data_location [] d
           end in
  let d := match Database r with
           | Some o => Set_database
                         [flattenLakeFormationDatabaseResource (Some o)] d
           | None => Set_database [] d
           end in
  match TableWithColumns r with
  | Some o =>
      Set_table_with_columns
        [flattenLakeFormationTableWithColumnsResource (Some o)] d
  | None =>
      match Table r with
      | Some o =>
          Set_table [flattenLakeFormationTableResource (Some o)]
            (Set_table_with_columns [] d)
      | None => Set_table [] d
      end
  end.

(** The request sent by Read: the principal, the catalog id when declared,
    and the squashed locator. *)
Definition listPermissionsInput (d : ResourceData) (res : Resource)
    : ListPermissionsInput.t :=
  ListPermissionsInput.mk (GetOk_catalog_id d)
    (mkDataLakePrincipal (Some (principal d))) res.

Definition grantPermissionsInput (d : ResourceData) (res : Resource)
    : GrantPermissionsInput.t :=
  GrantPermissionsInput.mk (GetOk_catalog_id d)
    (expandStringList (Get_strings (permissions d)))
    (GetOk_permissions_with_grant_option d)
    (mkDataLakePrincipal (Some (principal d))) res.

Definition revokePermissionsInput (d : ResourceData) (res : Resource)
    : RevokePermissionsInput.t :=
  RevokePermissionsInput.mk (GetOk_catalog_id d)
    (expandStringList (Get_strings (permissions d)))
    (GetOk_permissions_with_grant_option d)
    (mkDataLakePrincipal (Some (principal d))) res.

(** The closure Read hands to [resource.Retry]. *)
Definition listPermissionsAttempt (conn : Conn) (input : ListPermissionsInput.t)
    (st : readState) : readState * option RetryError :=
  let '(st', err) := listPermissionsOnce conn input st in
  (st', classifyListError err).

(** Read after its remote calls: the NotFound test, the error test, the two
    length tests and the write-back. *)
Definition readOutcome (d : ResourceData) (r : readState * option error)
    : ResourceData * RemoteCalls * option error :=
  let '(st, err) := r in
  if negb (IsNewResource d) && ErrCodeEquals err ErrCodeEntityNotFoundException
  then (SetId "" d, readCalls st, None)
  else
    match err with
    | Some e =>
        (d, readCalls st,
         Some (Wrapf "error reading Lake Formation permissions" e))
    | None =>
        match principalResourcePermissions st with
        | [] =>
            (d, readCalls st,
             Some (Errorf "error reading Lake Formation permissions: no permissions found"))
        | first :: _ =>
            if Nat.ltb 2 (length (principalResourcePermissions st)) then
              (d, readCalls st,
               Some (Errorf "error reading Lake Formation permissions: multiple permissions found for same resource"))
            else
              let d := Set_principal
                         (DataLakePrincipalIdentifier
                            (PrincipalResourcePermissions.Principal first)) d in
              let d := Set_permissions
                         (flattenLakeFormationPermissions
                            (principalResourcePermissions st)) d in
              let d := Set_permissions_with_grant_option
                         (flattenLakeFormationGrantPermissions
                            (principalResourcePermissions st)) d in
              (setLocatorFields
                 (PrincipalResourcePermissions.Resource_ first) d,
               readCalls st, None)
        end
    end.

Definition classifyGrantError (err : option error) : option RetryError :=
  match err with
  | None => None
  | Some e =>
      if isAWSErr e ErrCodeInvalidInputException "Invalid principal" then
        Some (RetryableError e)
      else if isAWSErr e ErrCodeInvalidInputException "Grantee has no permissions" then
        Some (RetryableError e)
      else if isAWSErr e ErrCodeInvalidInputException "register the S3 path" then
        Some (RetryableError e)
      else if isAWSErr e ErrCodeConcurrentModificationException "" then
        Some (RetryableError e)
      else if isAWSErr e "AccessDeniedException"
                "is not authorized to access requested permissions" then
        Some (RetryableError e)
      else Some (NonRetryableError
                   (Wrapf "error creating Lake Formation Permissions" e))
  end.

(** One [output, err = conn.GrantPermissions(input)]; the state is the call
    counter and the captured variable [output]. *)
Definition grantPermissionsOnce (conn : Conn) (input : GrantPermissionsInput.t)
    (st : RemoteCalls * option GrantPermissionsOutput)
    : (RemoteCalls * option GrantPermissionsOutput) * option error :=
  let '(output, err) := GrantPermissions conn (grantCalls (fst st)) input in
  ((incGrant (fst st), output), err).

(** The closure Create hands to [resource.Retry]. *)
Definition grantPermissionsAttempt (conn : Conn) (input : GrantPermissionsInput.t)
    (st : RemoteCalls * option GrantPermissionsOutput)
    : (RemoteCalls * option GrantPermissionsOutput) * option RetryError :=
  let '(st', err) := grantPermissionsOnce conn input st in
  (st', classifyGrantError err).

Definition classifyRevokeError (err : option error) : option RetryError :=
  match err with
  | None => None
  | Some e =>
      if isAWSErr e ErrCodeInvalidInputException "register the S3 path" then
        Some (RetryableError e)
      else if isAWSErr e ErrCodeConcurrentModificationException "" then
        Some (RetryableError e)
      else Some (NonRetryableError
                   (Wrapf "unable to revoke Lake Formation Permissions" e))
  end.

(** One [_, err = conn.RevokePermissions(input)]. *)
Definition revokePermissionsOnce (conn : Conn) (input : RevokePermissionsInput.t)
    (w : RemoteCalls) : RemoteCalls * option error :=
  (incRevoke w, RevokePermissions conn (revokeCalls w) input).

(** The closure Delete hands to [resource.Retry]. *)
Definition revokePermissionsAttempt (conn : Conn)
    (input : RevokePermissionsInput.t) (w : RemoteCalls)
    : RemoteCalls * option RetryError :=
  let '(w', err) := revokePermissionsOnce conn input w in
  (w', classifyRevokeError err).

Section Operations.

(** The client, and the two retry budgets counted in attempts
    ([iamwaiter.PropagationTimeout] for Create and Read, [2*time.Minute] for
    Delete). *)
Variable meta : AWSClient.
Variable PropagationTimeout : nat.
Variable twoMinutes : nat.
(** [fmt.Sprintf("%d", hashcode.String(input.String()))], the stored handle. *)
Variable handle : GrantPermissionsInput.t → string.

(** The retried List call of Read followed by
    [if isResourceTimeoutError(err) { err = conn.ListPermissionsPages(...) }]. *)
Definition listPermissionsWithRetry (input : ListPermissionsInput.t)
    (st : readState) : readState * option error :=
  let conn := lakeformationconn meta in
  let '(st, err) :=
    resource_Retry PropagationTimeout (listPermissionsAttempt conn input) st in
  if isResourceTimeoutError err then listPermissionsOnce conn input st
  else (st, err).

Definition resourceAwsLakeFormationPermissionsRead (d : ResourceData)
    (w : RemoteCalls) : go (ResourceData * RemoteCalls * option error) :=
  inputResource ←go expandLakeFormationResource d true;
  let input := listPermissionsInput d inputResource in
  matchResource ←go expandLakeFormationResource d false;
  selectPermissionsResource ←go expandLakeFormationResourceForSelectPermissions d;
  Ret (readOutcome d
         (listPermissionsWithRetry input
            (mkReadState matchResource selectPermissionsResource [] w))).

(** The retried Grant call of Create followed by
    [if isResourceTimeoutError(err) { output, err = conn.GrantPermissions(input) }]. *)
Definition grantPermissionsWithRetry (input : GrantPermissionsInput.t)
    (w : RemoteCalls)
    : (RemoteCalls * option GrantPermissionsOutput) * option error :=
  let conn := lakeformationconn meta in
  let '(st, err) :=
    resource_Retry PropagationTimeout (grantPermissionsAttempt conn input)
      (w, None) in
  if isResourceTimeoutError err then grantPermissionsOnce conn input st
  else (st, err).

(** Create after its remote calls. *)
Definition createOutcome (d : ResourceData) (input : GrantPermissionsInput.t)
    (r : (RemoteCalls * option GrantPermissionsOutput) * option error)
    : go (ResourceData * RemoteCalls * option error) :=
  let '((w, output), err) := r in
  match err with
  | Some e =>
      Ret (d, w,
           Some (Wrapf "error creating Lake Formation Permissions (input: %v)" e))
  | None =>
      match output with
      | None =>
          Ret (d, w,
               Some (Errorf "error creating Lake Formation Permissions: empty response"))
      | Some _ =>
          resourceAwsLakeFormationPermissionsRead (SetId (handle input) d) w
      end
  end.

Definition resourceAwsLakeFormationPermissionsCreate (d : ResourceData)
    (w : RemoteCalls) : go (ResourceData * RemoteCalls * option error) :=
  res ←go expandLakeFormationResource d false;
  let input := grantPermissionsInput d res in
  createOutcome d input (grantPermissionsWithRetry input w).

(** The retried Revoke call of Delete followed by
    [if isResourceTimeoutError(err) { _, err = conn.RevokePermissions(input) }]. *)
Definition revokePermissionsWithRetry (input : RevokePermissionsInput.t)
    (w : RemoteCalls) : RemoteCalls * option error :=
  let conn := lakeformationconn meta in
  let '(w, err) :=
    resource_Retry twoMinutes (revokePermissionsAttempt conn input) w in
  if isResourceTimeoutError err then revokePermissionsOnce conn input w
  else (w, err).

(** Delete after its remote calls. *)
Definition deleteOutcome (d : ResourceData) (r : RemoteCalls * option error)
    : ResourceData * RemoteCalls * option error :=
  let '(w, err) := r in
  match err with
  | Some e =>
      (d, w,
       Some (Wrapf "unable to revoke LakeFormation Permissions (input: %v)" e))
  | None => (d, w, None)
  end.

Definition resourceAwsLakeFormationPermissionsDelete (d : ResourceData)
    (w : RemoteCalls) : go (ResourceData * RemoteCalls * option error) :=
  res ←go expandLakeFormationResource d false;
  let input := revokePermissionsInput d res in
  Ret (deleteOutcome d (revokePermissionsWithRetry input w)).

End Operations.

(* ===================================================================== *)
(** * Vocabulary of the statements *)
(* ===================================================================== *)

(** A locator with the catalog id of every populated variant unset. *)
Definition clearCatalogId (r : Resource) : Resource :=
  mkResource
    (Catalog r)
    (DataLocationResource.setCatalogId None <$> DataLocation r)
    (DatabaseResource.setCatalogId None <$> Database r)
    (TableResource.setCatalogId None <$> Table r)
    (TableWithColumnsResource.setCatalogId None <$> TableWithColumns r).

(** Two objects of one variant agree on whether the catalog id is set. *)
Definition samePresence {A : Type} (getCat : A → option string)
    (x y : option A) : bool :=
  match x, y with
  | Some i, Some o =>
      match getCat i, getCat o with
      | Some _, Some _ => true
      | None, None => true
      | _, _ => false
      end
  | _, _ => true
  end.

(** On every variant both locators populate, the catalog id is set on both
    sides or on neither. *)
Definition catalogPresenceAgrees (a b : Resource) : bool :=
  samePresence DataLocationResource.CatalogId (DataLocation a) (DataLocation b)
  && samePresence DatabaseResource.CatalogId (Database a) (Database b)
  && samePresence TableResource.CatalogId (Table a) (Table b)
  && samePresence TableWithColumnsResource.CatalogId
       (TableWithColumns a) (TableWithColumns b).

(** The state a retried function has reached after [n] attempts. *)
Fixpoint afterAttempts {St E : Type} (n : nat) (f : St → St * E) (st : St) : St :=
  match n with
  | O => st
  | S n' => afterAttempts n' f (fst (f st))
  end.

Definition addGrantCalls (n : nat) (w : RemoteCalls) : RemoteCalls :=
  mkRemoteCalls (n + grantCalls w) (listCalls w) (revokeCalls w).
Definition addListCalls (n : nat) (w : RemoteCalls) : RemoteCalls :=
  mkRemoteCalls (grantCalls w) (n + listCalls w) (revokeCalls w).
Definition addRevokeCalls (n : nat) (w : RemoteCalls) : RemoteCalls :=
  mkRemoteCalls (grantCalls w) (listCalls w) (n + revokeCalls w).

(** The tags of the non-nil fields of a wire locator, in field order. *)
Definition populatedFields (r : Resource) : list DataLakeResourceType :=
  (if Catalog r is Some _ then [DataLakeResourceTypeCatalog] else [])
  ++ (if DataLocation r is Some _ then [DataLakeResourceTypeDataLocation] else [])
  ++ (if Database r is Some _ then [DataLakeResourceTypeDatabase] else [])
  ++ (if Table r is Some _ then [DataLakeResourceTypeTable] else [])
  ++ (if TableWithColumns r is Some _ then [DataLakeResourceTypeTableWithColumns] else []).

(** A list-typed key of a block: absent, or a list. *)
Definition listTyped (v : option TfValue) : Prop :=
  match v with
  | None => True
  | Some (VList _) => True
  | Some _ => False
  end.

(** What the validation layer guarantees and the expansion relies on: a
    request that declares none of catalog, data location, database or table
    carries a table-with-columns block whose column lists are lists. *)
Definition validRequest (d : ResourceData) : Prop :=
  expandLakeFormationResourceType d = DataLakeResourceTypeTableWithColumns →
  ∃ m rest, table_with_columns d = Some m :: rest
            ∧ listTyped (m !! "column_names")
            ∧ listTyped (m !! "excluded_column_names").

(** The variant whose field the expansion fills: the classified one, except
    that squashing turns table-with-columns into table. *)
Definition expandedVariant (t : DataLakeResourceType) (squash : bool)
    : DataLakeResourceType :=
  match t with
  | DataLakeResourceTypeTableWithColumns =>
      if squash then DataLakeResourceTypeTable
      else DataLakeResourceTypeTableWithColumns
  | _ => t
  end.

(** Every populated variant of a locator carries the catalog id [c]. *)
Definition sameCatalog (c : option string) (r : Resource) : Prop :=
  (∀ x, DataLocation r = Some x → DataLocationResource.CatalogId x = c)
  ∧ (∀ x, Database r = Some x → DatabaseResource.CatalogId x = c)
  ∧ (∀ x, Table r = Some x → TableResource.CatalogId x = c)
  ∧ (∀ x, TableWithColumns r = Some x → TableWithColumnsResource.CatalogId x = c).

(** An entry the comparator accepts against the declared locator or against
    the auxiliary one, each taken as declared. *)
Definition acceptedBy (m : Resource) (sel : option Resource)
    (e : PrincipalResourcePermissions.t) : bool :=
  Equal m (PrincipalResourcePermissions.Resource_ e)
  || match sel with
     | Some s => Equal s (PrincipalResourcePermissions.Resource_ e)
     | None => false
     end.

(** The non-nil entries of a page. *)
Definition nonNilEntries (resp : list (option PrincipalResourcePermissions.t))
    : list PrincipalResourcePermissions.t :=
  omap id resp.

(** The locators the closures of Read hold accept the same locators of
    catalog [c] as the declared ones [m0] and [sel0]. *)
Definition behavesAs (c : option string) (m0 : Resource)
    (sel0 : option Resource) (st : readState) : Prop :=
  (∀ o, sameCatalog c o → Equal (matchResource st) o = Equal m0 o)
  ∧ match selectPermissionsResource st, sel0 with
    | Some s, Some s0 => ∀ o, sameCatalog c o → Equal s o = Equal s0 o
    | None, None => True
    | _, _ => False
    end.

(** A string pointer that is nil or points to a non-empty string. *)
Definition nilOrNonEmpty (v : option string) : Prop := v ≠ Some "".

(** A string slice none of whose elements is the empty string. *)
Definition noEmptyElement (l : option (list string)) : Prop :=
  match l with
  | None => True
  | Some xs => Forall (fun x => x ≠ "") xs
  end.

(** A string slice that is nil, or has at least one element and no empty
    one. *)
Definition nilOrFilled (l : option (list string)) : Prop :=
  match l with
  | None => True
  | Some [] => False
  | Some xs => Forall (fun x => x ≠ "") xs
  end.

(** No string of the locator is the empty string. *)
Definition noEmptyField (r : Resource) : Prop :=
  (∀ o, DataLocation r = Some o →
     nilOrNonEmpty (DataLocationResource.CatalogId o)
     ∧ nilOrNonEmpty (DataLocationResource.ResourceArn o))
  ∧ (∀ o, Database r = Some o →
       nilOrNonEmpty (DatabaseResource.CatalogId o)
       ∧ nilOrNonEmpty (DatabaseResource.Name o))
  ∧ (∀ o, Table r = Some o →
       nilOrNonEmpty (TableResource.CatalogId o)
       ∧ nilOrNonEmpty (TableResource.DatabaseName o)
       ∧ nilOrNonEmpty (TableResource.Name o))
  ∧ (∀ o, TableWithColumns r = Some o →
       nilOrNonEmpty (TableWithColumnsResource.CatalogId o)
       ∧ nilOrNonEmpty (TableWithColumnsResource.DatabaseName o)
       ∧ nilOrNonEmpty (TableWithColumnsResource.Name o)
       ∧ noEmptyElement (TableWithColumnsResource.ColumnNames o)
       ∧ ∀ cw, TableWithColumnsResource.ColumnWildcard_ o = Some cw →
               noEmptyElement (ColumnWildcard.ExcludedColumnNames cw)).

(** A table-with-columns object that flattening followed by expansion gives
    back: no empty string, column names nil or filled, and the column
    wildcard, when there is one, with at least one excluded column. *)
Definition survivesFlatten (o : TableWithColumnsResource.t) : Prop :=
  nilOrNonEmpty (TableWithColumnsResource.CatalogId o)
  ∧ nilOrNonEmpty (TableWithColumnsResource.DatabaseName o)
  ∧ nilOrNonEmpty (TableWithColumnsResource.Name o)
  ∧ nilOrFilled (TableWithColumnsResource.ColumnNames o)
  ∧ match TableWithColumnsResource.ColumnWildcard_ o with
    | None => True
    | Some cw =>
        match ColumnWildcard.ExcludedColumnNames cw with
        | Some (x :: xs) => Forall (fun x => x ≠ "") (x :: xs)
        | _ => False
        end
    end.

(** A locator every populated object of which flattening followed by
    expansion gives back. *)
Definition locatorSurvivesFlatten (r : Resource) : Prop :=
  (∀ o, DataLocation r = Some o →
     nilOrNonEmpty (DataLocationResource.CatalogId o)
     ∧ nilOrNonEmpty (DataLocationResource.ResourceArn o))
  ∧ (∀ o, Database r = Some o →
       nilOrNonEmpty (DatabaseResource.CatalogId o)
       ∧ nilOrNonEmpty (DatabaseResource.Name o))
  ∧ (∀ o, Table r = Some o →
       nilOrNonEmpty (TableResource.CatalogId o)
       ∧ nilOrNonEmpty (TableResource.DatabaseName o)
       ∧ nilOrNonEmpty (TableResource.Name o))
  ∧ (∀ o, TableWithColumns r = Some o → survivesFlatten o).

(** An entry whose locator is the declared locator [m0] or the auxiliary
    locator [sel0], catalog ids left aside. *)
Definition sameResourceAs (m0 : Resource) (sel0 : option Resource)
    (e : PrincipalResourcePermissions.t) : Prop :=
  clearCatalogId (PrincipalResourcePermissions.Resource_ e) = clearCatalogId m0
  ∨ ∃ s0, sel0 = Some s0
          ∧ clearCatalogId (PrincipalResourcePermissions.Resource_ e)
            = clearCatalogId s0.

(** The closures of Read hold the declared locators, catalog ids left
    aside, and have retained entries of those locators only. *)
Definition retainedSound (m0 : Resource) (sel0 : option Resource)
    (st : readState) : Prop :=
  clearCatalogId (matchResource st) = clearCatalogId m0
  ∧ clearCatalogId <$> selectPermissionsResource st = clearCatalogId <$> sel0
  ∧ Forall (sameResourceAs m0 sel0) (principalResourcePermissions st).

(* ===================================================================== *)
(** * Sample data *)
(* ===================================================================== *)

Definition databaseLocator (cat : option string) (name : string) : Resource :=
  mkResource None None (Some (DatabaseResource.mk cat (Some name))) None None.

Definition tableLocator (cat : option string) (db name : string) : Resource :=
  mkResource None None None
    (Some (TableResource.mk cat (Some db) (Some name) None)) None.

Definition wildcardColumnsLocator (cat : option string) (db name : string)
    : Resource :=
  mkResource None None None None
    (Some (TableWithColumnsResource.mk cat None
             (Some (ColumnWildcard.mk None)) (Some db) (Some name))).

(** A store holding a declared database locator at address 1 and two remote
    ones at addresses 2 and 3. *)
Definition sampleHeap : HeapModel.Heap :=
  HeapModel.mkHeap ∅
    (<[1%positive := DatabaseResource.mk None (Some "db1")]>
       (<[2%positive := DatabaseResource.mk (Some "111122223333") (Some "other")]>
          (<[3%positive := DatabaseResource.mk (Some "444455556666") (Some "db1")]> ∅)))
    ∅ ∅.

Definition databaseAt (a : positive) : HeapModel.ResourcePtrs :=
  HeapModel.mkPtrs None None (Some a) None None.

(** A request for a table restricted to one column. *)
Definition columnsRequest : ResourceData :=
  mkResourceData "" false "" false [] [] ["SELECT"] [] "role/X" []
    [Some (<["database_name" := VString "db1"]>
             (<["name" := VString "t1"]>
                (<["column_names" := VList [VString "c1"]]> ∅)))].

(** A request for all tables of a database, as the schema layer hands it
    over: every key of the block present, the unset ones at their zero
    value. *)
Definition wildcardTableRequest : ResourceData :=
  mkResourceData "" false "" false [] [] ["SELECT"] [] "role/X"
    [Some (<["catalog_id" := VString ""]>
             (<["database_name" := VString "db1"]>
                (<["name" := VString ""]>
                   (<["wildcard" := VBool true]> ∅))))]
    [].

Definition noCalls : RemoteCalls := mkRemoteCalls 0 0 0.

(** A request for one database and one for one table. *)
Definition databaseRequest : ResourceData :=
  mkResourceData "" false "" false []
    [Some (<["name" := VString "db1"]> ∅)]
    ["SELECT"; "ALTER"] [] "role/X" [] [].

Definition tableRequest : ResourceData :=
  mkResourceData "" false "" false [] [] ["SELECT"] [] "role/X"
    [Some (<["database_name" := VString "db1"]>
             (<["name" := VString "t1"]> ∅))]
    [].


(** A service on which the grant is absent: List and Revoke report
    EntityNotFound. *)
Definition absentGrantConn : Conn :=
  mkConn
    (fun _ _ => (Some mkGrantPermissionsOutput, None))
    (fun _ _ => ([], Some (awsError ErrCodeEntityNotFoundException
                             "Entity not found")))
    (fun _ _ => Some (awsError ErrCodeEntityNotFoundException
                        "Entity not found")).

(** Two remote entries for table db1.t1: the table itself and the column
    wildcard the service keeps for SELECT. *)
Definition tableEntry : PrincipalResourcePermissions.t :=
  PrincipalResourcePermissions.mk ["ALTER"] [] (mkDataLakePrincipal (Some "role/X"))
    (tableLocator (Some "111122223333") "db1" "t1").

Definition wildcardColumnsEntry : PrincipalResourcePermissions.t :=
  PrincipalResourcePermissions.mk ["SELECT"] ["SELECT"]
    (mkDataLakePrincipal (Some "role/X"))
    (wildcardColumnsLocator (Some "111122223333") "db1" "t1").

(** A service whose List answers with the given pages. *)
Definition listingConn
    (pages : list (list (option PrincipalResourcePermissions.t))) : Conn :=
  mkConn
    (fun _ _ => (Some mkGrantPermissionsOutput, None))
    (fun _ _ => (pages, None))
    (fun _ _ => None).

(** A service whose first List call fails with the retryable "Invalid
    principal" error and whose later List calls succeed with no entry. *)
Definition invalidPrincipalThenEmptyConn : Conn :=
  mkConn
    (fun _ _ => (Some mkGrantPermissionsOutput, None))
    (fun k _ => match k with
                | O => ([], Some (awsError ErrCodeInvalidInputException
                                    "Invalid principal"))
                | S _ => ([], None)
                end)
    (fun _ _ => None).

(** A service whose first Revoke call fails with a concurrent modification
    and whose later ones succeed. *)
Definition concurrentThenOkConn : Conn :=
  mkConn
    (fun k _ => match k with
                | O => (None, Some (awsError ErrCodeConcurrentModificationException
                                      "conflict"))
                | S _ => (Some mkGrantPermissionsOutput, None)
                end)
    (fun _ _ => ([], None))
    (fun k _ => match k with
                | O => Some (awsError ErrCodeConcurrentModificationException
                               "conflict")
                | S _ => None
                end).




(** A locator with two objects populated, database db1 and table db1.t1,
    each with its own catalog id. *)
Definition databaseAndTableLocator (dbCat tableCat : option string)
    : Resource :=
  mkResource None None
    (Some (DatabaseResource.mk dbCat (Some "db1")))
    (Some (TableResource.mk tableCat (Some "db1") (Some "t1") None))
    None.

(* ===================================================================== *)
(** * LocatorComparator *)
(* ===================================================================== *)

Section Lens.

Context {A : Type}.
Variable getCat : A → option string.
Variable setCat : option string → A → A.
Hypothesis get_set : ∀ c x, getCat (setCat c x) = c.
Hypothesis set_get : ∀ x, setCat (getCat x) x = x.
Hypothesis set_set : ∀ c c' x, setCat c (setCat c' x) = setCat c x.

Lemma fillCatalogId_self (x : option A) :
  fillCatalogId getCat setCat x x = x.
Proof.
  destruct x as [i|]; simpl; [|done].
  destruct (getCat i) eqn:E; [done|].
  by rewrite <- E, set_get.
Qed.

Lemma fillCatalogId_cleared (x : option A) :
  fillCatalogId getCat setCat (setCat None <$> x) x = x.
Proof.
  destruct x as [i|]; simpl; [|done].
  by rewrite get_set, set_set, set_get.
Qed.

Lemma fillCatalogId_samePresence (x y : option A) :
  samePresence getCat x y = true → fillCatalogId getCat setCat x y = x.
Proof.
  destruct x as [i|], y as [o|]; simpl; try done.
  destruct (getCat i) eqn:Ei, (getCat o) eqn:Eo; try done.
  intros _. by rewrite <- Ei, set_get.
Qed.

Lemma samePresence_sym (x y : option A) :
  samePresence getCat x y = samePresence getCat y x.
Proof.
  destruct x as [i|], y as [o|]; simpl; try done.
  by destruct (getCat i), (getCat o).
Qed.

Lemma fillCatalogId_twice (inX o o' : option A) (c : option string) :
  (∀ x, o = Some x → getCat x = c) →
  (∀ y, o' = Some y → getCat y = c) →
  fillCatalogId getCat setCat (fillCatalogId getCat setCat inX o) o' = o'
  ↔ fillCatalogId getCat setCat inX o' = o'.
Proof.
  intros Ho Ho'.
  destruct inX as [i|]; [|done].
  destruct (getCat i) as [s|] eqn:Ei.
  - assert (fillCatalogId getCat setCat (Some i) o = Some i) as ->; [|done].
    destruct o; simpl; by rewrite ?Ei.
  - destruct o as [x|]; [|done].
    assert (fillCatalogId getCat setCat (Some i) (Some x) = Some (setCat c i))
      as -> by (simpl; by rewrite Ei, (Ho x eq_refl)).
    destruct o' as [y|]; [|by simpl].
    simpl. rewrite get_set, Ei, (Ho' y eq_refl).
    destruct c; [done|]. by rewrite set_set.
Qed.

End Lens.

Lemma DataLocation_lens :
  (∀ c x, DataLocationResource.CatalogId (DataLocationResource.setCatalogId c x) = c)
  ∧ (∀ x, DataLocationResource.setCatalogId (DataLocationResource.CatalogId x) x = x)
  ∧ (∀ c c' x, DataLocationResource.setCatalogId c (DataLocationResource.setCatalogId c' x)
               = DataLocationResource.setCatalogId c x).
Proof. repeat split; intros; try destruct x; reflexivity. Qed.

Lemma Database_lens :
  (∀ c x, DatabaseResource.CatalogId (DatabaseResource.setCatalogId c x) = c)
  ∧ (∀ x, DatabaseResource.setCatalogId (DatabaseResource.CatalogId x) x = x)
  ∧ (∀ c c' x, DatabaseResource.setCatalogId c (DatabaseResource.setCatalogId c' x)
               = DatabaseResource.setCatalogId c x).
Proof. repeat split; intros; try destruct x; reflexivity. Qed.

Lemma Table_lens :
  (∀ c x, TableResource.CatalogId (TableResource.setCatalogId c x) = c)
  ∧ (∀ x, TableResource.setCatalogId (TableResource.CatalogId x) x = x)
  ∧ (∀ c c' x, TableResource.setCatalogId c (TableResource.setCatalogId c' x)
               = TableResource.setCatalogId c x).
Proof. repeat split; intros; try destruct x; reflexivity. Qed.

Lemma TableWithColumns_lens :
  (∀ c x, TableWithColumnsResource.CatalogId (TableWithColumnsResource.setCatalogId c x) = c)
  ∧ (∀ x, TableWithColumnsResource.setCatalogId (TableWithColumnsResource.CatalogId x) x = x)
  ∧ (∀ c c' x, TableWithColumnsResource.setCatalogId c
                 (TableWithColumnsResource.setCatalogId c' x)
               = TableWithColumnsResource.setCatalogId c x).
Proof. repeat split; intros; try destruct x; reflexivity. Qed.

(** Applies a lemma of the lens section to the four variants of a locator. *)
Ltac by_variant lem :=
  destruct DataLocation_lens as (? & ? & ?);
  destruct Database_lens as (? & ? & ?);
  destruct Table_lens as (? & ? & ?);
  destruct TableWithColumns_lens as (? & ? & ?);
  rewrite ?lem by (assumption || done).

Lemma defaultFill_self (a : Resource) : defaultFill a a = a.
Proof.
  unfold defaultFill. by_variant @fillCatalogId_self. by destruct a.
Qed.

Lemma defaultFill_cleared (b : Resource) : defaultFill (clearCatalogId b) b = b.
Proof.
  unfold defaultFill, clearCatalogId; simpl.
  by_variant @fillCatalogId_cleared. by destruct b.
Qed.

Lemma defaultFill_samePresence (a b : Resource) :
  catalogPresenceAgrees a b = true → defaultFill a b = a.
Proof.
  unfold catalogPresenceAgrees. rewrite !andb_true_iff.
  intros [[[H1 H2] H3] H4]. unfold defaultFill.
  by_variant @fillCatalogId_samePresence. by destruct a.
Qed.

Lemma catalogPresenceAgrees_sym (a b : Resource) :
  catalogPresenceAgrees a b = catalogPresenceAgrees b a.
Proof.
  unfold catalogPresenceAgrees.
  by rewrite (samePresence_sym _ (DataLocation a)),
    (samePresence_sym _ (Database a)), (samePresence_sym _ (Table a)),
    (samePresence_sym _ (TableWithColumns a)).
Qed.

Lemma Equal_spec (a b : Resource) :
  Equal a b = true ↔ defaultFill a b = b.
Proof.
  unfold Equal, resourceAwsLakeFormationPermissionsCompareResource,
    reflect_DeepEqual; simpl.
  apply bool_decide_eq_true.
Qed.

Lemma Equal_refl (a : Resource) : Equal a a = true.
Proof. apply Equal_spec, defaultFill_self. Qed.

Lemma Equal_declared_unset (b : Resource) : Equal (clearCatalogId b) b = true.
Proof. apply Equal_spec, defaultFill_cleared. Qed.

Lemma Equal_sym_same_presence (a b : Resource) :
  catalogPresenceAgrees a b = true → Equal a b = Equal b a.
Proof.
  intros H.
  unfold Equal, resourceAwsLakeFormationPermissionsCompareResource,
    reflect_DeepEqual; simpl.
  rewrite (defaultFill_samePresence a b H).
  rewrite catalogPresenceAgrees_sym in H.
  rewrite (defaultFill_samePresence b a H).
  apply bool_decide_ext. split; congruence.
Qed.

Lemma fillCatalogId_unset_second_variant {A : Type}
    (getCat : A → option string) (setCat : option string → A → A)
    (x : option A) :
  (∀ c y, getCat (setCat c y) = c) →
  (∀ y, setCat (getCat y) y = y) →
  fillCatalogId getCat setCat x (setCat None <$> x) = x.
Proof.
  intros get_set set_get. destruct x as [i|]; [|done]. simpl.
  destruct (getCat i) eqn:Ei; [done|].
  by rewrite get_set, <- Ei, set_get.
Qed.

(** With the locator whose catalog ids are unset in second place there is
    nothing to copy: the first argument stays as it is. *)
Lemma defaultFill_unset_second (b : Resource) :
  defaultFill b (clearCatalogId b) = b.
Proof.
  destruct DataLocation_lens as (A1 & B1 & _).
  destruct Database_lens as (A2 & B2 & _).
  destruct Table_lens as (A3 & B3 & _).
  destruct TableWithColumns_lens as (A4 & B4 & _).
  unfold defaultFill, clearCatalogId; simpl.
  rewrite !fillCatalogId_unset_second_variant by assumption.
  by destruct b.
Qed.

Lemma Equal_unset_second (b : Resource) :
  clearCatalogId b ≠ b → Equal b (clearCatalogId b) = false.
Proof.
  intros Hb. apply not_true_is_false. rewrite Equal_spec.
  rewrite defaultFill_unset_second. congruence.
Qed.

(** C1 (as amended).  The comparison is reflexive; it is symmetric on two
    locators that agree, variant by variant, on whether the catalog id is
    set; a declared locator whose catalog ids are all unset compares equal
    to the remote locator that has the same fields and the catalog ids set;
    and, the default-fill being applied to the first argument only, the same
    two locators compare unequal when the one with the catalog ids unset
    comes second, whenever the other has a catalog id set at all. *)
Theorem Equal_reflexive_fill_symmetric (a b : Resource) :
  Equal a a = true
  ∧ Equal (clearCatalogId b) b = true
  ∧ (catalogPresenceAgrees a b = true → Equal a b = Equal b a)
  ∧ (clearCatalogId b ≠ b → Equal b (clearCatalogId b) = false).
Proof.
  split; [apply Equal_refl|].
  split; [apply Equal_declared_unset|].
  split; [apply Equal_sym_same_presence|].
  apply Equal_unset_second.
Qed.

Lemma Equal_reflexive_fill_symmetric_witness :
  Equal (databaseLocator (Some "111122223333") "db1")
        (databaseLocator (Some "444455556666") "db1")
  = Equal (databaseLocator (Some "444455556666") "db1")
          (databaseLocator (Some "111122223333") "db1")
  ∧ Equal (databaseLocator (Some "444455556666") "db1")
          (clearCatalogId (databaseLocator (Some "444455556666") "db1"))
    = false.
Proof.
  destruct (Equal_reflexive_fill_symmetric
              (databaseLocator (Some "111122223333") "db1")
              (databaseLocator (Some "444455556666") "db1"))
    as (_ & _ & Hsym & Hunset).
  split.
  - apply Hsym. reflexivity.
  - apply Hunset. vm_compute. discriminate.
Defined.

(** C1 (as stated) fails: the default-fill is applied to the first argument
    only, so a declared locator with the catalog id unset equals the remote
    one, while the remote one does not equal the declared one. *)
Lemma Equal_not_symmetric :
  Equal (databaseLocator None "db1") (databaseLocator (Some "111122223333") "db1")
    = true
  ∧ Equal (databaseLocator (Some "111122223333") "db1") (databaseLocator None "db1")
    = false.
Proof. split; reflexivity. Qed.

(* ===================================================================== *)
(** * The comparison writes through the shared pointers *)
(* ===================================================================== *)

Section HeapLens.

Context {A : Type}.
Variable getCat : A → option string.
Variable setCat : option string → A → A.
Hypothesis set_get : ∀ x, setCat (getCat x) x = x.

Lemma deref_fillCell_in (m : gmap positive A) (pin pout : option positive)
    (vi vo : option A) :
  HeapModel.deref m pin = Some vi →
  HeapModel.deref m pout = Some vo →
  HeapModel.deref (HeapModel.fillCell getCat setCat m pin pout) pin
  = Some (fillCatalogId getCat setCat vi vo).
Proof.
  unfold HeapModel.deref, HeapModel.fillCell.
  destruct pin as [a|]; [|by intros [= <-]].
  destruct (m !! a) as [i|] eqn:Ea; [|done]. intros [= <-].
  destruct pout as [b|]; [|intros [= <-]; by rewrite Ea].
  destruct (m !! b) as [o|] eqn:Eb; [|done]. intros [= <-]. simpl.
  destruct (getCat i); [by rewrite Ea|].
  by rewrite lookup_insert_eq.
Qed.

Lemma deref_fillCell_out (m : gmap positive A) (pin pout : option positive)
    (vi vo : option A) :
  HeapModel.deref m pin = Some vi →
  HeapModel.deref m pout = Some vo →
  HeapModel.deref (HeapModel.fillCell getCat setCat m pin pout) pout = Some vo.
Proof.
  unfold HeapModel.deref, HeapModel.fillCell.
  destruct pin as [a|]; [|by destruct pout].
  destruct (m !! a) as [i|] eqn:Ea; [|done]. intros _.
  destruct pout as [b|]; [|done].
  destruct (m !! b) as [o|] eqn:Eb; [|done]. intros [= <-]. simpl.
  destruct (getCat i) eqn:Ei; [by rewrite Eb|].
  destruct (decide (a = b)) as [->|Hne].
  - rewrite lookup_insert_eq. rewrite Ea in Eb. injection Eb as ->.
    by rewrite set_get.
  - by rewrite lookup_insert_ne, Eb.
Qed.

End HeapLens.

(** X12.  The store-level comparison and the value-level one agree: the
    boolean is [Equal], the remote locator is left as it was, and the
    caller's struct, which holds the same addresses as the copy [in],
    afterwards denotes the default-filled locator. *)
Lemma HeapModel_compare_refines (h : HeapModel.Heap)
    (in_ out : HeapModel.ResourcePtrs) (vi vo : Resource) :
  HeapModel.load h in_ = Some vi →
  HeapModel.load h out = Some vo →
  HeapModel.load
    (fst (HeapModel.resourceAwsLakeFormationPermissionsCompareResource h in_ out))
    in_ = Some (defaultFill vi vo)
  ∧ HeapModel.load
      (fst (HeapModel.resourceAwsLakeFormationPermissionsCompareResource h in_ out))
      out = Some vo
  ∧ snd (HeapModel.resourceAwsLakeFormationPermissionsCompareResource h in_ out)
    = Equal vi vo.
Proof.
  intros Hi Ho.
  destruct DataLocation_lens as (_ & L1 & _).
  destruct Database_lens as (_ & L2 & _).
  destruct Table_lens as (_ & L3 & _).
  destruct TableWithColumns_lens as (_ & L4 & _).
  unfold HeapModel.load in Hi, Ho.
  destruct (HeapModel.deref (HeapModel.hDataLocation h) (HeapModel.pDataLocation in_))
    as [i1|] eqn:I1; [|done].
  destruct (HeapModel.deref (HeapModel.hDatabase h) (HeapModel.pDatabase in_))
    as [i2|] eqn:I2; [|done].
  destruct (HeapModel.deref (HeapModel.hTable h) (HeapModel.pTable in_))
    as [i3|] eqn:I3; [|done].
  destruct (HeapModel.deref (HeapModel.hTableWithColumns h)
              (HeapModel.pTableWithColumns in_)) as [i4|] eqn:I4; [|done].
  destruct (HeapModel.deref (HeapModel.hDataLocation h) (HeapModel.pDataLocation out))
    as [o1|] eqn:O1; [|done].
  destruct (HeapModel.deref (HeapModel.hDatabase h) (HeapModel.pDatabase out))
    as [o2|] eqn:O2; [|done].
  destruct (HeapModel.deref (HeapModel.hTable h) (HeapModel.pTable out))
    as [o3|] eqn:O3; [|done].
  destruct (HeapModel.deref (HeapModel.hTableWithColumns h)
              (HeapModel.pTableWithColumns out)) as [o4|] eqn:O4; [|done].
  injection Hi as <-. injection Ho as <-.
  assert (Hin :
    HeapModel.load
      (fst (HeapModel.resourceAwsLakeFormationPermissionsCompareResource h in_ out))
      in_
    = Some (defaultFill
              (mkResource (HeapModel.pCatalog in_) i1 i2 i3 i4)
              (mkResource (HeapModel.pCatalog out) o1 o2 o3 o4))).
  { unfold HeapModel.load; simpl.
    rewrite (deref_fillCell_in _ _ _ _ _ _ _ I1 O1).
    rewrite (deref_fillCell_in _ _ _ _ _ _ _ I2 O2).
    rewrite (deref_fillCell_in _ _ _ _ _ _ _ I3 O3).
    by rewrite (deref_fillCell_in _ _ _ _ _ _ _ I4 O4). }
  assert (Hout :
    HeapModel.load
      (fst (HeapModel.resourceAwsLakeFormationPermissionsCompareResource h in_ out))
      out
    = Some (mkResource (HeapModel.pCatalog out) o1 o2 o3 o4)).
  { unfold HeapModel.load; simpl.
    rewrite (deref_fillCell_out _ _ L1 _ _ _ _ _ I1 O1).
    rewrite (deref_fillCell_out _ _ L2 _ _ _ _ _ I2 O2).
    rewrite (deref_fillCell_out _ _ L3 _ _ _ _ _ I3 O3).
    by rewrite (deref_fillCell_out _ _ L4 _ _ _ _ _ I4 O4). }
  split; [exact Hin|]. split; [exact Hout|].
  unfold HeapModel.resourceAwsLakeFormationPermissionsCompareResource in *.
  simpl in *. rewrite Hin, Hout.
  unfold Equal, resourceAwsLakeFormationPermissionsCompareResource,
    reflect_DeepEqual; simpl.
  apply bool_decide_ext. split; congruence.
Qed.

(** C2: the comparison does not leave the caller's locator as it was.  The
    declared database locator at address 1 has no catalog id; comparing it
    with the remote locator at address 2 stores that locator's catalog id in
    it, and the later comparison with the remote locator at address 3, which
    a fresh comparison accepts, is then refused. *)
Theorem compare_writes_declared_locator :
  HeapModel.load sampleHeap (databaseAt 1) = Some (databaseLocator None "db1")
  ∧ HeapModel.load
      (fst (HeapModel.resourceAwsLakeFormationPermissionsCompareResource
              sampleHeap (databaseAt 1) (databaseAt 2)))
      (databaseAt 1)
    = Some (databaseLocator (Some "111122223333") "db1")
  ∧ snd (HeapModel.resourceAwsLakeFormationPermissionsCompareResource
           sampleHeap (databaseAt 1) (databaseAt 3)) = true
  ∧ snd (HeapModel.resourceAwsLakeFormationPermissionsCompareResource
           (fst (HeapModel.resourceAwsLakeFormationPermissionsCompareResource
                   sampleHeap (databaseAt 1) (databaseAt 2)))
           (databaseAt 1) (databaseAt 3)) = false.
Proof. repeat split; vm_compute; reflexivity. Qed.

(* ===================================================================== *)
(** * ResourceLocator: classification and expansion *)
(* ===================================================================== *)

Lemma nonEmptyList_listTyped (v : option TfValue) :
  listTyped v → ∃ r, nonEmptyList v = Ret r.
Proof.
  destruct v as [[| | |l]|]; simpl; try done; intros _.
  - destruct l as [|[| | |] ?]; eauto.
  - eauto.
Qed.

Lemma blockPresent_firstMap (v : list (option (gmap string TfValue))) :
  blockPresent v = true → ∃ m, firstMap v = Ret m.
Proof. destruct v as [|[m|] ?]; simpl; try done. eauto. Qed.

Lemma expandLakeFormationResourceType_precedence (d : ResourceData) :
  (catalog_resource d = true →
     expandLakeFormationResourceType d = DataLakeResourceTypeCatalog)
  ∧ (catalog_resource d = false → blockPresent (data_location d) = true →
     expandLakeFormationResourceType d = DataLakeResourceTypeDataLocation)
  ∧ (catalog_resource d = false → blockPresent (data_location d) = false →
     blockPresent (database d) = true →
     expandLakeFormationResourceType d = DataLakeResourceTypeDatabase)
  ∧ (catalog_resource d = false → blockPresent (data_location d) = false →
     blockPresent (database d) = false → blockPresent (table d) = true →
     expandLakeFormationResourceType d = DataLakeResourceTypeTable)
  ∧ (catalog_resource d = false → blockPresent (data_location d) = false →
     blockPresent (database d) = false → blockPresent (table d) = false →
     expandLakeFormationResourceType d = DataLakeResourceTypeTableWithColumns).
Proof.
  unfold expandLakeFormationResourceType.
  repeat split; intros; repeat match goal with H : _ = _ |- _ => rewrite H end;
    reflexivity.
Qed.

Lemma expandLakeFormationResource_populates (d : ResourceData) (squash : bool) :
  validRequest d →
  ∃ r, expandLakeFormationResource d squash = Ret r
       ∧ populatedFields r
         = [expandedVariant (expandLakeFormationResourceType d) squash].
Proof.
  intros Hvalid. unfold validRequest in Hvalid.
  unfold expandLakeFormationResource.
  unfold expandLakeFormationResourceType in *.
  destruct (catalog_resource d); [eexists; split; reflexivity|].
  destruct (blockPresent (data_location d)) eqn:E1.
  { destruct (blockPresent_firstMap _ E1) as [m ->]. eexists; split; reflexivity. }
  destruct (blockPresent (database d)) eqn:E2.
  { destruct (blockPresent_firstMap _ E2) as [m ->]. eexists; split; reflexivity. }
  destruct (blockPresent (table d)) eqn:E3.
  { destruct (blockPresent_firstMap _ E3) as [m ->]. eexists; split; reflexivity. }
  destruct (Hvalid eq_refl) as (m & rest & -> & Hc & He).
  destruct squash; simpl; [eexists; split; reflexivity|].
  destruct (nonEmptyList_listTyped _ Hc) as [c ->].
  destruct (nonEmptyList_listTyped _ He) as [e ->].
  simpl. eexists; split; reflexivity.
Qed.

(** C9 (as amended).  For every valid request the classification follows
    the fixed precedence catalog, data location, database, table, with
    table-with-columns as the fallback, and the expansion fills exactly one
    field of the wire locator: the field of the classified variant, except
    that a table-with-columns request expanded with squashing fills the
    table field. *)
Theorem classification_precedence_and_single_field (d : ResourceData)
    (squash : bool) :
  validRequest d →
  ((catalog_resource d = true →
      expandLakeFormationResourceType d = DataLakeResourceTypeCatalog)
   ∧ (catalog_resource d = false → blockPresent (data_location d) = true →
      expandLakeFormationResourceType d = DataLakeResourceTypeDataLocation)
   ∧ (catalog_resource d = false → blockPresent (data_location d) = false →
      blockPresent (database d) = true →
      expandLakeFormationResourceType d = DataLakeResourceTypeDatabase)
   ∧ (catalog_resource d = false → blockPresent (data_location d) = false →
      blockPresent (database d) = false → blockPresent (table d) = true →
      expandLakeFormationResourceType d = DataLakeResourceTypeTable)
   ∧ (catalog_resource d = false → blockPresent (data_location d) = false →
      blockPresent (database d) = false → blockPresent (table d) = false →
      expandLakeFormationResourceType d = DataLakeResourceTypeTableWithColumns))
  ∧ ∃ r, expandLakeFormationResource d squash = Ret r
         ∧ populatedFields r
           = [expandedVariant (expandLakeFormationResourceType d) squash].
Proof.
  intros Hvalid. split.
  - apply expandLakeFormationResourceType_precedence.
  - by apply expandLakeFormationResource_populates.
Qed.

Lemma classification_precedence_and_single_field_witness :
  validRequest columnsRequest
  ∧ ∃ r, expandLakeFormationResource columnsRequest false = Ret r
         ∧ populatedFields r
           = [expandedVariant (expandLakeFormationResourceType columnsRequest) false].
Proof.
  assert (Hvalid : validRequest columnsRequest).
  { intros _. eexists _, _. split; [reflexivity|]. split; vm_compute; exact I. }
  split; [exact Hvalid|].
  apply (classification_precedence_and_single_field columnsRequest false Hvalid).
Defined.

(** C9 (as stated) fails: a request classified as table-with-columns and
    expanded with squashing has its table field filled and its
    table-with-columns field nil. *)
Lemma squashed_expansion_fills_table :
  expandLakeFormationResourceType columnsRequest
    = DataLakeResourceTypeTableWithColumns
  ∧ expandLakeFormationResource columnsRequest true
    = Ret (tableLocator None "db1" "t1")
  ∧ populatedFields (tableLocator None "db1" "t1") = [DataLakeResourceTypeTable].
Proof. repeat split; vm_compute; reflexivity. Qed.

(* ===================================================================== *)
(** * SelectSplitResolver *)
(* ===================================================================== *)

Lemma select_split_named_table (d : ResourceData) (m : gmap string TfValue)
    (rest : list (option (gmap string TfValue))) (db name : string) :
  table d = Some m :: rest →
  m !! "database_name" = Some (VString db) →
  m !! "name" = Some (VString name) →
  expandLakeFormationResourceForSelectPermissions d
  = Ret (Some (wildcardColumnsLocator None db name)).
Proof.
  intros Ht Hdb Hname. unfold expandLakeFormationResourceForSelectPermissions.
  by rewrite Ht, Hdb, Hname.
Qed.

Lemma select_split_no_table (d : ResourceData) :
  table d = [] → expandLakeFormationResourceForSelectPermissions d = Ret None.
Proof.
  intros Ht. unfold expandLakeFormationResourceForSelectPermissions.
  by rewrite Ht.
Qed.

Lemma select_split_name_not_a_string (d : ResourceData)
    (m : gmap string TfValue) (rest : list (option (gmap string TfValue))) :
  table d = Some m :: rest →
  assertString (m !! "name") = None →
  expandLakeFormationResourceForSelectPermissions d = Ret None.
Proof.
  intros Ht Hname. unfold expandLakeFormationResourceForSelectPermissions.
  rewrite Ht, Hname. by destruct (assertString (m !! "database_name")).
Qed.

(** C3: on a request for all tables of a database, whose table locator the
    expansion builds with the wildcard set and no name, an auxiliary locator
    is produced all the same, with the empty string as its name: the
    resolver tests that the name is a string, not that it is non-empty as
    the expansion of the same block does. *)
Theorem select_split_on_wildcard_table :
  expandLakeFormationResource wildcardTableRequest false
  = Ret (mkResource None None None
           (Some (TableResource.mk None (Some "db1") None (Some mkTableWildcard)))
           None)
  ∧ expandLakeFormationResourceForSelectPermissions wildcardTableRequest
    = Ret (Some (wildcardColumnsLocator None "db1" "")).
Proof. split; vm_compute; reflexivity. Qed.

(* ===================================================================== *)
(** * RetryPolicy: the bounded loop *)
(* ===================================================================== *)

Section Retry.

Context {St : Type}.
Variable f : St → St * option RetryError.

Lemma resource_Retry_exhausted (n : nat) (st : St) :
  (∀ i, i < n →
     ∃ e, snd (f (afterAttempts i f st)) = Some (RetryableError e)) →
  resource_Retry n f st = (afterAttempts n f st, Some TimeoutError).
Proof.
  revert st. induction n as [|n IH]; intros st H; [reflexivity|].
  simpl. destruct (H 0) as [e He]; [lia|]. simpl in He.
  destruct (f st) as [st' r] eqn:Ef. simpl in *. subst r.
  apply IH. intros i Hi. destruct (H (S i)) as [e' He']; [lia|].
  simpl in He'. rewrite Ef in He'. eauto.
Qed.

Lemma resource_Retry_success (n : nat) (st st' : St) :
  resource_Retry n f st = (st', None) →
  ∃ i, i < n ∧ f (afterAttempts i f st) = (st', None).
Proof.
  revert st. induction n as [|n IH]; intros st H; [done|].
  simpl in H. destruct (f st) as [st1 r] eqn:Ef.
  destruct r as [[e|e]|].
  - destruct (IH _ H) as (i & Hi & Hf). exists (S i). split; [lia|].
    simpl. by rewrite Ef.
  - done.
  - injection H as ->. exists 0. split; [lia|]. done.
Qed.

Lemma resource_Retry_state (n : nat) (st st' : St) (err : option error) :
  resource_Retry n f st = (st', err) →
  ∃ k, (k ≤ n)%nat ∧ st' = afterAttempts k f st.
Proof.
  revert st. induction n as [|n IH]; intros st H; simpl in H.
  - injection H as <- _. exists 0. split; [lia|done].
  - destruct (f st) as [st1 r] eqn:Ef. destruct r as [[e|e]|].
    + destruct (IH _ H) as (k & Hk & ->). exists (S k). split; [lia|].
      simpl. by rewrite Ef.
    + injection H as <- _. exists 1. split; [lia|]. simpl. by rewrite Ef.
    + injection H as <- _. exists 1. split; [lia|]. simpl. by rewrite Ef.
Qed.

Lemma resource_Retry_terminal (n : nat) (st st1 : St) (e : error) :
  f st = (st1, Some (NonRetryableError e)) →
  resource_Retry (S n) f st = (st1, Some e).
Proof. intros Ef. simpl. by rewrite Ef. Qed.

Lemma resource_Retry_first_success (n : nat) (st st1 : St) :
  f st = (st1, None) → resource_Retry (S n) f st = (st1, None).
Proof. intros Ef. simpl. by rewrite Ef. Qed.

End Retry.

(* ===================================================================== *)
(** * Delete *)
(* ===================================================================== *)

Lemma afterAttempts_revoke (conn : Conn) (input : RevokePermissionsInput.t)
    (i : nat) (w : RemoteCalls) :
  afterAttempts i (revokePermissionsAttempt conn input) w = addRevokeCalls i w.
Proof.
  revert w. induction i as [|i IH]; intros w; simpl.
  - by destruct w.
  - rewrite IH. unfold addRevokeCalls, incRevoke; simpl.
    by rewrite Nat.add_succ_r.
Qed.

Lemma classifyRevokeError_None (err : option error) :
  classifyRevokeError err = None → err = None.
Proof.
  destruct err as [e|]; [|done]. unfold classifyRevokeError.
  by repeat case_match.
Qed.

Lemma classifyRevokeError_not_found (msg : string) :
  classifyRevokeError (Some (awsError ErrCodeEntityNotFoundException msg))
  = Some (NonRetryableError
            (Wrapf "unable to revoke Lake Formation Permissions"
               (awsError ErrCodeEntityNotFoundException msg))).
Proof. reflexivity. Qed.

(** C4 (as amended).  Delete has no case for a grant that is already
    absent: when Revoke reports EntityNotFound, Delete makes that one call
    and returns the error, wrapped with its context; and whenever Delete
    completes with ok, the last Revoke call it made succeeded. *)
Theorem Delete_surfaces_absent_grant (meta : AWSClient) (n : nat)
    (d : ResourceData) (w : RemoteCalls) (res : Resource) (msg : string) :
  expandLakeFormationResource d false = Ret res →
  (RevokePermissions (lakeformationconn meta) (revokeCalls w)
     (revokePermissionsInput d res)
   = Some (awsError ErrCodeEntityNotFoundException msg) →
   ∃ e, resourceAwsLakeFormationPermissionsDelete meta n d w
        = Ret (d, addRevokeCalls 1 w, Some e)
        ∧ ErrCodeEquals (Some e) ErrCodeEntityNotFoundException = true)
  ∧ (∀ d' w',
       resourceAwsLakeFormationPermissionsDelete meta n d w = Ret (d', w', None) →
       ∃ k, revokeCalls w' = S k ∧ (revokeCalls w ≤ k)%nat
            ∧ RevokePermissions (lakeformationconn meta) k
                (revokePermissionsInput d res) = None).
Proof.
  intros Hres. unfold resourceAwsLakeFormationPermissionsDelete.
  rewrite Hres; simpl. unfold revokePermissionsWithRetry. split.
  - intros Hrev. destruct n as [|n].
    + simpl. unfold revokePermissionsOnce. rewrite Hrev. simpl.
      eexists. split; reflexivity.
    + erewrite resource_Retry_terminal.
      2:{ unfold revokePermissionsAttempt, revokePermissionsOnce.
          rewrite Hrev. apply f_equal. apply classifyRevokeError_not_found. }
      simpl. eexists. split; reflexivity.
  - intros d' w'.
    destruct (resource_Retry n _ w) as [w1 err] eqn:ER.
    destruct (isResourceTimeoutError err) eqn:Et.
    + destruct (resource_Retry_state _ _ _ _ _ ER) as (k & _ & Hk).
      rewrite afterAttempts_revoke in Hk. subst w1.
      unfold revokePermissionsOnce; simpl.
      destruct (RevokePermissions _ _ _) as [e|] eqn:Ek; [done|].
      intros [= <- <-]. exists (k + revokeCalls w). simpl.
      split; [done|]. split; [lia|done].
    + destruct err as [e|]; [done|]. simpl. intros [= <- Hw].
      destruct (resource_Retry_success _ _ _ _ ER) as (i & Hi & Hf).
      rewrite afterAttempts_revoke in Hf.
      unfold revokePermissionsAttempt, revokePermissionsOnce in Hf.
      injection Hf as Hw' Hc. apply classifyRevokeError_None in Hc.
      exists (i + revokeCalls w). subst w' w1. simpl.
      split; [done|]. split; [lia|done].
Qed.

Lemma Delete_surfaces_absent_grant_witness :
  ∃ e, resourceAwsLakeFormationPermissionsDelete
         (mkAWSClient absentGrantConn) 3 databaseRequest noCalls
       = Ret (databaseRequest, addRevokeCalls 1 noCalls, Some e)
       ∧ ErrCodeEquals (Some e) ErrCodeEntityNotFoundException = true.
Proof.
  apply (Delete_surfaces_absent_grant (mkAWSClient absentGrantConn) 3
           databaseRequest noCalls (databaseLocator None "db1")
           "Entity not found").
  - vm_compute; reflexivity.
  - reflexivity.
Defined.

(** C4 (as stated) fails: on a service that reports the grant as absent,
    Delete returns an error. *)
Lemma Delete_of_absent_grant_is_an_error :
  resourceAwsLakeFormationPermissionsDelete
    (mkAWSClient absentGrantConn) 3 databaseRequest noCalls
  = Ret (databaseRequest, mkRemoteCalls 0 0 1,
         Some (Wrapf "unable to revoke LakeFormation Permissions (input: %v)"
                 (Wrapf "unable to revoke Lake Formation Permissions"
                    (awsError ErrCodeEntityNotFoundException "Entity not found")))).
Proof. vm_compute; reflexivity. Qed.

(* ===================================================================== *)
(** * Read *)
(* ===================================================================== *)

Lemma retainEntry_readCalls (st : readState)
    (permission : option PrincipalResourcePermissions.t) :
  readCalls (retainEntry st permission) = readCalls st.
Proof.
  unfold retainEntry. destruct permission as [p|]; [|done].
  destruct (resourceAwsLakeFormationPermissionsCompareResource _ _) as [m' b].
  destruct b; [done|].
  destruct (selectPermissionsResource st) as [sel|]; [|done].
  by destruct (resourceAwsLakeFormationPermissionsCompareResource _ _).
Qed.

Lemma retainPage_readCalls (resp : list (option PrincipalResourcePermissions.t))
    (st : readState) :
  readCalls (retainPage st resp) = readCalls st.
Proof.
  unfold retainPage. revert st.
  induction resp as [|p resp IH]; intros st; simpl; [done|].
  by rewrite IH, retainEntry_readCalls.
Qed.

Lemma retainPages_readCalls
    (pages : list (list (option PrincipalResourcePermissions.t)))
    (st : readState) :
  readCalls (fold_left retainPage pages st) = readCalls st.
Proof.
  revert st. induction pages as [|p pages IH]; intros st; simpl; [done|].
  by rewrite IH, retainPage_readCalls.
Qed.

Lemma listPermissionsOnce_readCalls (conn : Conn)
    (input : ListPermissionsInput.t) (st : readState) :
  readCalls (fst (listPermissionsOnce conn input st)) = incList (readCalls st).
Proof.
  unfold listPermissionsOnce.
  destruct (ListPermissionsPages _ _ _) as [pages err]. simpl.
  by rewrite retainPages_readCalls.
Qed.

Lemma listPermissionsOnce_err (conn : Conn)
    (input : ListPermissionsInput.t) (st : readState) :
  snd (listPermissionsOnce conn input st)
  = snd (ListPermissionsPages conn (listCalls (readCalls st)) input).
Proof.
  unfold listPermissionsOnce.
  by destruct (ListPermissionsPages _ _ _) as [pages err].
Qed.

(** When the first List call succeeds, the retried call is that one call,
    whatever the budget. *)
Lemma listPermissionsWithRetry_first_success (meta : AWSClient) (n : nat)
    (input : ListPermissionsInput.t) (st : readState) :
  snd (ListPermissionsPages (lakeformationconn meta) (listCalls (readCalls st))
         input) = None →
  listPermissionsWithRetry meta n input st
  = (fst (listPermissionsOnce (lakeformationconn meta) input st), None).
Proof.
  intros Herr. rewrite <- listPermissionsOnce_err in Herr.
  unfold listPermissionsWithRetry. destruct n as [|n]; simpl.
  - destruct (listPermissionsOnce _ _ _) as [st' err]. simpl in *. by subst.
  - unfold listPermissionsAttempt.
    destruct (listPermissionsOnce _ _ _) as [st' err]. simpl in *. by subst.
Qed.





(** What the two length tests of Read look at is the slice its callback has
    filled: when the retried List call ends without an error, Read returns
    the error "no permissions found" if no entry was retained, the error
    "multiple permissions found for same resource" if more than two were,
    and it succeeds exactly when one or two entries were retained. *)
Lemma Read_counts_retained_entries (meta : AWSClient) (n : nat)
    (d : ResourceData) (w : RemoteCalls) (inputResource matchRes : Resource)
    (sel : option Resource) (st : readState) :
  expandLakeFormationResource d true = Ret inputResource →
  expandLakeFormationResource d false = Ret matchRes →
  expandLakeFormationResourceForSelectPermissions d = Ret sel →
  listPermissionsWithRetry meta n (listPermissionsInput d inputResource)
    (mkReadState matchRes sel [] w) = (st, None) →
  (length (principalResourcePermissions st) = 0 →
   resourceAwsLakeFormationPermissionsRead meta n d w
   = Ret (d, readCalls st,
          Some (Errorf "error reading Lake Formation permissions: no permissions found")))
  ∧ (2 < length (principalResourcePermissions st) →
     resourceAwsLakeFormationPermissionsRead meta n d w
     = Ret (d, readCalls st,
            Some (Errorf "error reading Lake Formation permissions: multiple permissions found for same resource")))
  ∧ ((∃ d' w', resourceAwsLakeFormationPermissionsRead meta n d w
               = Ret (d', w', None))
     ↔ (1 ≤ length (principalResourcePermissions st))%nat
       ∧ (length (principalResourcePermissions st) ≤ 2)%nat).
Proof.
  intros H1 H2 H3 HL. unfold resourceAwsLakeFormationPermissionsRead.
  rewrite H1, H2, H3; simpl. rewrite HL. unfold readOutcome.
  simpl. rewrite andb_false_r.
  destruct (principalResourcePermissions st) as [|first rest] eqn:Ep; simpl.
  - split; [done|]. split; [lia|]. split; [|lia].
    by intros (d' & w' & [=]).
  - split; [done|].
    destruct rest as [|second [|third rest]]; simpl.
    + split; [lia|]. split; [intros _; lia|]. eauto.
    + split; [lia|]. split; [intros _; lia|]. eauto.
    + split; [done|]. split; [|lia]. by intros (d' & w' & [=]).
Qed.

Lemma flattenLakeFormationPermissions_concat
    (l : list PrincipalResourcePermissions.t) :
  flattenLakeFormationPermissions l
  = concat (map PrincipalResourcePermissions.Permissions l).
Proof. induction l as [|e l IH]; simpl; [done|]. by rewrite IH. Qed.

Lemma flattenLakeFormationGrantPermissions_concat
    (l : list PrincipalResourcePermissions.t) :
  flattenLakeFormationGrantPermissions l
  = concat (map PrincipalResourcePermissions.PermissionsWithGrantOption l).
Proof. induction l as [|e l IH]; simpl; [done|]. by rewrite IH. Qed.

Lemma setLocatorFields_permissions (r : Resource) (d : ResourceData) :
  permissions (setLocatorFields r d) = permissions d
  ∧ permissions_with_grant_option (setLocatorFields r d)
    = permissions_with_grant_option d.
Proof.
  unfold setLocatorFields.
  by destruct (Catalog r), (DataLocation r), (Database r),
    (TableWithColumns r), (Table r).
Qed.

Lemma compare_table_unset (c : option string) (db name : string) :
  resourceAwsLakeFormationPermissionsCompareResource
    (tableLocator None db name) (tableLocator c db name)
  = (tableLocator c db name, true).
Proof.
  unfold resourceAwsLakeFormationPermissionsCompareResource, reflect_DeepEqual.
  cbv zeta. change (defaultFill (tableLocator None db name) (tableLocator c db name))
    with (tableLocator c db name).
  by rewrite bool_decide_true.
Qed.

Lemma compare_table_with_columns (c c' : option string) (db name : string) :
  resourceAwsLakeFormationPermissionsCompareResource
    (tableLocator c db name) (wildcardColumnsLocator c' db name)
  = (tableLocator c db name, false).
Proof.
  unfold resourceAwsLakeFormationPermissionsCompareResource, reflect_DeepEqual.
  cbv zeta. change (defaultFill (tableLocator c db name) (wildcardColumnsLocator c' db name))
    with (tableLocator c db name).
  by rewrite bool_decide_false.
Qed.

Lemma compare_columns_unset (c : option string) (db name : string) :
  resourceAwsLakeFormationPermissionsCompareResource
    (wildcardColumnsLocator None db name) (wildcardColumnsLocator c db name)
  = (wildcardColumnsLocator c db name, true).
Proof.
  unfold resourceAwsLakeFormationPermissionsCompareResource, reflect_DeepEqual.
  cbv zeta. change (defaultFill (wildcardColumnsLocator None db name)
            (wildcardColumnsLocator c db name))
    with (wildcardColumnsLocator c db name).
  by rewrite bool_decide_true.
Qed.

Lemma retainEntry_table (c : option string) (db name : string)
    (sel : option Resource) (l : list PrincipalResourcePermissions.t)
    (w : RemoteCalls) (p g : list string) (pr : DataLakePrincipal) :
  retainEntry (mkReadState (tableLocator None db name) sel l w)
    (Some (PrincipalResourcePermissions.mk p g pr (tableLocator c db name)))
  = mkReadState (tableLocator c db name) sel
      (l ++ [PrincipalResourcePermissions.mk p g pr (tableLocator c db name)]) w.
Proof.
  unfold retainEntry.
  cbn [matchResource PrincipalResourcePermissions.Resource_].
  by rewrite compare_table_unset.
Qed.

Lemma retainEntry_columns (c c' : option string) (db name : string)
    (l : list PrincipalResourcePermissions.t)
    (w : RemoteCalls) (p g : list string) (pr : DataLakePrincipal) :
  retainEntry
    (mkReadState (tableLocator c db name)
       (Some (wildcardColumnsLocator None db name)) l w)
    (Some (PrincipalResourcePermissions.mk p g pr
             (wildcardColumnsLocator c' db name)))
  = mkReadState (tableLocator c db name)
      (Some (wildcardColumnsLocator c' db name))
      (l ++ [PrincipalResourcePermissions.mk p g pr
               (wildcardColumnsLocator c' db name)]) w.
Proof.
  unfold retainEntry.
  cbn [matchResource selectPermissionsResource
       PrincipalResourcePermissions.Resource_].
  by rewrite compare_table_with_columns, compare_columns_unset.
Qed.

Lemma tableRequest_expansions :
  expandLakeFormationResource tableRequest true = Ret (tableLocator None "db1" "t1")
  ∧ expandLakeFormationResource tableRequest false
    = Ret (tableLocator None "db1" "t1")
  ∧ expandLakeFormationResourceForSelectPermissions tableRequest
    = Ret (Some (wildcardColumnsLocator None "db1" "t1")).
Proof. repeat split; vm_compute; reflexivity. Qed.

(** C7.  A Read that succeeds on one or two retained entries reports the
    permission lists of the retained entries appended in order, nothing
    removed, and likewise the grantable permissions.  In particular, for the
    request on table db1.t1, a List answer made of the table entry and of
    the column-wildcard entry of that table retains both and Read reports
    the permissions of the first followed by those of the second. *)
Theorem Read_merges_matched_entries (meta : AWSClient) (n : nat) :
  (∀ (d : ResourceData) (w : RemoteCalls) (inputResource matchRes : Resource)
     (sel : option Resource) (st : readState),
     expandLakeFormationResource d true = Ret inputResource →
     expandLakeFormationResource d false = Ret matchRes →
     expandLakeFormationResourceForSelectPermissions d = Ret sel →
     listPermissionsWithRetry meta n (listPermissionsInput d inputResource)
       (mkReadState matchRes sel [] w) = (st, None) →
     (1 ≤ length (principalResourcePermissions st))%nat →
     (length (principalResourcePermissions st) ≤ 2)%nat →
     ∃ d', resourceAwsLakeFormationPermissionsRead meta n d w
           = Ret (d', readCalls st, None)
           ∧ permissions d'
             = concat (map PrincipalResourcePermissions.Permissions
                         (principalResourcePermissions st))
           ∧ permissions_with_grant_option d'
             = concat (map PrincipalResourcePermissions.PermissionsWithGrantOption
                         (principalResourcePermissions st)))
  ∧ (∀ (w : RemoteCalls) (c1 c2 : option string) (p1 p2 g1 g2 : list string)
       (pr1 pr2 : DataLakePrincipal),
       ListPermissionsPages (lakeformationconn meta) (listCalls w)
         (listPermissionsInput tableRequest (tableLocator None "db1" "t1"))
       = ([[Some (PrincipalResourcePermissions.mk p1 g1 pr1
                    (tableLocator c1 "db1" "t1"));
            Some (PrincipalResourcePermissions.mk p2 g2 pr2
                    (wildcardColumnsLocator c2 "db1" "t1"))]], None) →
       ∃ d', resourceAwsLakeFormationPermissionsRead meta n tableRequest w
             = Ret (d', incList w, None)
             ∧ permissions d' = p1 ++ p2
             ∧ permissions_with_grant_option d' = g1 ++ g2).
Proof.
  assert (General : ∀ (d : ResourceData) (w : RemoteCalls)
     (inputResource matchRes : Resource) (sel : option Resource) (st : readState),
     expandLakeFormationResource d true = Ret inputResource →
     expandLakeFormationResource d false = Ret matchRes →
     expandLakeFormationResourceForSelectPermissions d = Ret sel →
     listPermissionsWithRetry meta n (listPermissionsInput d inputResource)
       (mkReadState matchRes sel [] w) = (st, None) →
     (1 ≤ length (principalResourcePermissions st))%nat →
     (length (principalResourcePermissions st) ≤ 2)%nat →
     ∃ d', resourceAwsLakeFormationPermissionsRead meta n d w
           = Ret (d', readCalls st, None)
           ∧ permissions d'
             = concat (map PrincipalResourcePermissions.Permissions
                         (principalResourcePermissions st))
           ∧ permissions_with_grant_option d'
             = concat (map PrincipalResourcePermissions.PermissionsWithGrantOption
                         (principalResourcePermissions st))).
  { intros d w inputResource matchRes sel st H1 H2 H3 HL Hge Hle.
    unfold resourceAwsLakeFormationPermissionsRead.
    rewrite H1, H2, H3; simpl. rewrite HL. unfold readOutcome.
    simpl. rewrite andb_false_r.
    destruct (principalResourcePermissions st) as [|first rest] eqn:Ep;
      [simpl in Hge; lia|].
    replace (Nat.ltb 2 (length (first :: rest))) with false
      by (symmetry; apply Nat.ltb_ge; exact Hle).
    eexists. split; [reflexivity|].
    destruct (setLocatorFields_permissions
                (PrincipalResourcePermissions.Resource_ first)
                (Set_permissions_with_grant_option
                   (flattenLakeFormationGrantPermissions (first :: rest))
                   (Set_permissions
                      (flattenLakeFormationPermissions (first :: rest))
                      (Set_principal
                         (DataLakePrincipalIdentifier
                            (PrincipalResourcePermissions.Principal first)) d))))
      as [-> ->].
    split.
    - apply flattenLakeFormationPermissions_concat.
    - apply flattenLakeFormationGrantPermissions_concat. }
  split; [exact General|].
  intros w c1 c2 p1 p2 g1 g2 pr1 pr2 HList.
  destruct tableRequest_expansions as (E1 & E2 & E3).
  destruct (General tableRequest w _ _ _
    (mkReadState (tableLocator c1 "db1" "t1")
       (Some (wildcardColumnsLocator c2 "db1" "t1"))
       [PrincipalResourcePermissions.mk p1 g1 pr1 (tableLocator c1 "db1" "t1");
        PrincipalResourcePermissions.mk p2 g2 pr2
          (wildcardColumnsLocator c2 "db1" "t1")]
       (incList w)) E1 E2 E3) as (d' & Hd' & Hp & Hg).
  - rewrite listPermissionsWithRetry_first_success
      by (simpl; by rewrite HList).
    unfold listPermissionsOnce. cbn [readCalls]. rewrite HList.
    cbn [fold_left]. unfold retainPage. cbn [fold_left].
    by rewrite retainEntry_table, retainEntry_columns.
  - simpl; lia.
  - simpl; lia.
  - exists d'. simpl in *. rewrite !app_nil_r in Hp, Hg. done.
Qed.

Lemma Read_merges_matched_entries_witness :
  ∃ d', resourceAwsLakeFormationPermissionsRead
          (mkAWSClient (listingConn [[Some tableEntry; Some wildcardColumnsEntry]]))
          3 tableRequest noCalls
        = Ret (d', mkRemoteCalls 0 1 0, None)
        ∧ permissions d'
          = concat (map PrincipalResourcePermissions.Permissions
                      [tableEntry; wildcardColumnsEntry])
        ∧ permissions_with_grant_option d'
          = concat (map PrincipalResourcePermissions.PermissionsWithGrantOption
                      [tableEntry; wildcardColumnsEntry]).
Proof.
  apply (proj1 (Read_merges_matched_entries
                  (mkAWSClient
                     (listingConn [[Some tableEntry; Some wildcardColumnsEntry]]))
                  3)
           tableRequest noCalls (tableLocator None "db1" "t1")
           (tableLocator None "db1" "t1")
           (Some (wildcardColumnsLocator None "db1" "t1"))
           (mkReadState (tableLocator (Some "111122223333") "db1" "t1")
              (Some (wildcardColumnsLocator (Some "111122223333") "db1" "t1"))
              [tableEntry; wildcardColumnsEntry] (mkRemoteCalls 0 1 0))).
  - vm_compute; reflexivity.
  - vm_compute; reflexivity.
  - vm_compute; reflexivity.
  - vm_compute; reflexivity.
  - simpl; lia.
  - simpl; lia.
Defined.

(** C10.  The state Read reports depends on the order of the entries in the
    List answer: the table entry and the column-wildcard entry of table
    db1.t1, listed in the two possible orders, are both retained in both
    cases, and Read reports different permission lists and different table
    and table-with-columns blocks. *)
Theorem Read_depends_on_entry_order :
  Permutation [Some tableEntry; Some wildcardColumnsEntry]
              [Some wildcardColumnsEntry; Some tableEntry]
  ∧ ∃ dA dB,
      resourceAwsLakeFormationPermissionsRead
        (mkAWSClient (listingConn [[Some tableEntry; Some wildcardColumnsEntry]]))
        3 tableRequest noCalls
      = Ret (dA, incList noCalls, None)
      ∧ resourceAwsLakeFormationPermissionsRead
          (mkAWSClient (listingConn [[Some wildcardColumnsEntry; Some tableEntry]]))
          3 tableRequest noCalls
        = Ret (dB, incList noCalls, None)
      ∧ permissions dA = ["ALTER"; "SELECT"]
      ∧ permissions dB = ["SELECT"; "ALTER"]
      ∧ table_with_columns dA = []
      ∧ table_with_columns dB
        = [flattenLakeFormationTableWithColumnsResource
             (TableWithColumns (wildcardColumnsLocator (Some "111122223333") "db1" "t1"))]
      ∧ table dA
        = [flattenLakeFormationTableResource
             (Table (tableLocator (Some "111122223333") "db1" "t1"))]
      ∧ table dB = table tableRequest
      ∧ dA ≠ dB.
Proof.
  split; [apply perm_swap|].
  eexists _, _.
  split; [vm_compute; reflexivity|].
  split; [vm_compute; reflexivity|].
  split; [reflexivity|]. split; [reflexivity|].
  split; [reflexivity|]. split; [vm_compute; reflexivity|].
  split; [vm_compute; reflexivity|]. split; [vm_compute; reflexivity|].
  intros Heq. apply (f_equal permissions) in Heq. discriminate Heq.
Qed.

(* ===================================================================== *)
(** * RetryPolicy: the attempt made after the budget is exhausted *)
(* ===================================================================== *)

Lemma afterAttempts_grant (conn : Conn) (input : GrantPermissionsInput.t)
    (i : nat) (st : RemoteCalls * option GrantPermissionsOutput) :
  fst (afterAttempts i (grantPermissionsAttempt conn input) st)
  = addGrantCalls i (fst st).
Proof.
  revert st. induction i as [|i IH]; intros st; simpl.
  - by destruct st as [[] ?].
  - rewrite IH. unfold grantPermissionsAttempt, grantPermissionsOnce.
    destruct (GrantPermissions _ _ _) as [output err]. simpl.
    unfold addGrantCalls, incGrant; simpl. by rewrite Nat.add_succ_r.
Qed.

Lemma afterAttempts_list (conn : Conn) (input : ListPermissionsInput.t)
    (i : nat) (st : readState) :
  readCalls (afterAttempts i (listPermissionsAttempt conn input) st)
  = addListCalls i (readCalls st).
Proof.
  revert st. induction i as [|i IH]; intros st; simpl.
  - by destruct (readCalls st).
  - rewrite IH. unfold listPermissionsAttempt.
    pose proof (listPermissionsOnce_readCalls conn input st) as Hc.
    destruct (listPermissionsOnce conn input st) as [st' err]. simpl in *.
    rewrite Hc. unfold addListCalls, incList; simpl.
    by rewrite Nat.add_succ_r.
Qed.

Lemma revoke_budget_exhausted (conn : Conn) (input : RevokePermissionsInput.t)
    (n : nat) (w : RemoteCalls) :
  (∀ i, i < n →
     ∃ e, RevokePermissions conn (i + revokeCalls w) input = Some e
          ∧ classifyRevokeError (Some e) = Some (RetryableError e)) →
  resource_Retry n (revokePermissionsAttempt conn input) w
  = (addRevokeCalls n w, Some TimeoutError).
Proof.
  intros H. rewrite resource_Retry_exhausted.
  - by rewrite afterAttempts_revoke.
  - intros i Hi. destruct (H i Hi) as (e & He & Hc). exists e.
    rewrite afterAttempts_revoke.
    unfold revokePermissionsAttempt, revokePermissionsOnce. simpl.
    by rewrite He.
Qed.

Lemma grant_budget_exhausted (conn : Conn) (input : GrantPermissionsInput.t)
    (n : nat) (w : RemoteCalls) :
  (∀ i, i < n →
     ∃ e, snd (GrantPermissions conn (i + grantCalls w) input) = Some e
          ∧ classifyGrantError (Some e) = Some (RetryableError e)) →
  ∃ output,
    resource_Retry n (grantPermissionsAttempt conn input) (w, None)
    = ((addGrantCalls n w, output), Some TimeoutError).
Proof.
  intros H. rewrite resource_Retry_exhausted.
  - pose proof (afterAttempts_grant conn input n (w, None)) as Hc.
    destruct (afterAttempts n _ _) as [w' output]. simpl in Hc. subst w'.
    by exists output.
  - intros i Hi. destruct (H i Hi) as (e & He & Hc). exists e.
    pose proof (afterAttempts_grant conn input i (w, None)) as Hw.
    destruct (afterAttempts i _ _) as [w' output]. simpl in Hw. subst w'.
    unfold grantPermissionsAttempt, grantPermissionsOnce. simpl.
    destruct (GrantPermissions _ _ _) as [o err]. simpl in *. by subst err.
Qed.

Lemma list_budget_exhausted (conn : Conn) (input : ListPermissionsInput.t)
    (n : nat) (st : readState) :
  (∀ i, i < n →
     ∃ e, snd (ListPermissionsPages conn (i + listCalls (readCalls st)) input)
          = Some e
          ∧ classifyListError (Some e) = Some (RetryableError e)) →
  resource_Retry n (listPermissionsAttempt conn input) st
  = (afterAttempts n (listPermissionsAttempt conn input) st, Some TimeoutError).
Proof.
  intros H. apply resource_Retry_exhausted.
  intros i Hi. destruct (H i Hi) as (e & He & Hc). exists e.
  unfold listPermissionsAttempt at 1.
  pose proof (listPermissionsOnce_err conn input
                (afterAttempts i (listPermissionsAttempt conn input) st)) as Herr.
  rewrite afterAttempts_list in Herr. simpl in Herr.
  destruct (listPermissionsOnce _ _ _) as [st' err]. simpl in *.
  by rewrite Herr, He.
Qed.

Lemma readOutcome_calls (d : ResourceData) (st : readState)
    (err : option error) :
  snd (fst (readOutcome d (st, err))) = readCalls st.
Proof.
  unfold readOutcome.
  destruct (negb (IsNewResource d) && ErrCodeEquals err _); [done|].
  destruct err; [done|].
  destruct (principalResourcePermissions st); [done|].
  by destruct (Nat.ltb _ _).
Qed.

(** Read calls neither Grant nor Revoke. *)
Lemma Read_other_calls (meta : AWSClient) (n : nat) (d d' : ResourceData)
    (w w' : RemoteCalls) (err : option error) :
  resourceAwsLakeFormationPermissionsRead meta n d w = Ret (d', w', err) →
  grantCalls w' = grantCalls w ∧ revokeCalls w' = revokeCalls w.
Proof.
  unfold resourceAwsLakeFormationPermissionsRead.
  destruct (expandLakeFormationResource d true) as [r1|]; [|done].
  destruct (expandLakeFormationResource d false) as [r2|]; [|done].
  destruct (expandLakeFormationResourceForSelectPermissions d) as [sel|]; [|done].
  simpl. intros [= Hout].
  destruct (listPermissionsWithRetry _ _ _ _) as [st e] eqn:EL.
  pose proof (readOutcome_calls d st e) as Hc.
  rewrite Hout in Hc. simpl in Hc. subst w'.
  unfold listPermissionsWithRetry in EL.
  destruct (resource_Retry _ _ _) as [st1 e1] eqn:ER.
  destruct (resource_Retry_state _ _ _ _ _ ER) as (k & _ & ->).
  pose proof (afterAttempts_list (lakeformationconn meta)
                (listPermissionsInput d r1) k
                (mkReadState r2 sel [] w)) as Hk.
  destruct (isResourceTimeoutError e1).
  - pose proof (listPermissionsOnce_readCalls (lakeformationconn meta)
                  (listPermissionsInput d r1)
                  (afterAttempts k
                     (listPermissionsAttempt (lakeformationconn meta)
                        (listPermissionsInput d r1))
                     (mkReadState r2 sel [] w))) as Ho.
    rewrite EL in Ho. simpl in Ho. rewrite Ho, Hk. done.
  - injection EL as <- _. rewrite Hk. done.
Qed.

(** C8 (as amended).  With the retry loop and the timeout test modelled
    from the spec: when every attempt the budget allows ends in a retryable
    error, each operation makes exactly one more call of its remote
    operation, and what it does next depends on that call alone.  Delete
    returns ok if the call succeeded and its error, wrapped, otherwise.
    Create returns the wrapped error if the call failed and otherwise goes
    on to its response check and to Read, without a further Grant call.
    Read goes on to its NotFound test, error test and match-count tests on
    the outcome of the call, without a further List call. *)
Theorem one_additional_attempt_after_exhausted_budget (meta : AWSClient)
    (n : nat) (handle : GrantPermissionsInput.t → string)
    (d : ResourceData) (w : RemoteCalls) (res : Resource) :
  expandLakeFormationResource d false = Ret res →
  ((∀ i, i < n →
      ∃ e, RevokePermissions (lakeformationconn meta) (i + revokeCalls w)
             (revokePermissionsInput d res) = Some e
           ∧ classifyRevokeError (Some e) = Some (RetryableError e)) →
   resourceAwsLakeFormationPermissionsDelete meta n d w
   = Ret (d, addRevokeCalls (S n) w,
          match RevokePermissions (lakeformationconn meta) (n + revokeCalls w)
                  (revokePermissionsInput d res) with
          | Some e =>
              Some (Wrapf "unable to revoke LakeFormation Permissions (input: %v)" e)
          | None => None
          end))
  ∧ ((∀ i, i < n →
        ∃ e, snd (GrantPermissions (lakeformationconn meta) (i + grantCalls w)
                    (grantPermissionsInput d res)) = Some e
             ∧ classifyGrantError (Some e) = Some (RetryableError e)) →
     resourceAwsLakeFormationPermissionsCreate meta n handle d w
     = match GrantPermissions (lakeformationconn meta) (n + grantCalls w)
               (grantPermissionsInput d res) with
       | (_, Some e) =>
           Ret (d, addGrantCalls (S n) w,
                Some (Wrapf "error creating Lake Formation Permissions (input: %v)" e))
       | (None, None) =>
           Ret (d, addGrantCalls (S n) w,
                Some (Errorf "error creating Lake Formation Permissions: empty response"))
       | (Some _, None) =>
           resourceAwsLakeFormationPermissionsRead meta n
             (SetId (handle (grantPermissionsInput d res)) d)
             (addGrantCalls (S n) w)
       end
     ∧ ∀ d' w' err,
         resourceAwsLakeFormationPermissionsCreate meta n handle d w
         = Ret (d', w', err) →
         grantCalls w' = S n + grantCalls w)
  ∧ (∀ inputResource sel,
       expandLakeFormationResource d true = Ret inputResource →
       expandLakeFormationResourceForSelectPermissions d = Ret sel →
       (∀ i, i < n →
          ∃ e, snd (ListPermissionsPages (lakeformationconn meta)
                      (i + listCalls w)
                      (listPermissionsInput d inputResource)) = Some e
               ∧ classifyListError (Some e) = Some (RetryableError e)) →
       ∃ st,
         readCalls st = addListCalls n w
         ∧ resourceAwsLakeFormationPermissionsRead meta n d w
           = Ret (readOutcome d
                    (listPermissionsOnce (lakeformationconn meta)
                       (listPermissionsInput d inputResource) st))
         ∧ ∃ d' err,
             resourceAwsLakeFormationPermissionsRead meta n d w
             = Ret (d', addListCalls (S n) w, err)).
Proof.
  intros Hres. split; [|split].
  - intros H. unfold resourceAwsLakeFormationPermissionsDelete.
    rewrite Hres; simpl. unfold revokePermissionsWithRetry.
    rewrite (revoke_budget_exhausted _ _ _ _ H). simpl.
    unfold revokePermissionsOnce. simpl.
    by destruct (RevokePermissions _ _ _).
  - intros H.
    assert (Hcreate :
      resourceAwsLakeFormationPermissionsCreate meta n handle d w
      = match GrantPermissions (lakeformationconn meta) (n + grantCalls w)
                (grantPermissionsInput d res) with
        | (_, Some e) =>
            Ret (d, addGrantCalls (S n) w,
                 Some (Wrapf "error creating Lake Formation Permissions (input: %v)" e))
        | (None, None) =>
            Ret (d, addGrantCalls (S n) w,
                 Some (Errorf "error creating Lake Formation Permissions: empty response"))
        | (Some _, None) =>
            resourceAwsLakeFormationPermissionsRead meta n
              (SetId (handle (grantPermissionsInput d res)) d)
              (addGrantCalls (S n) w)
        end).
    { unfold resourceAwsLakeFormationPermissionsCreate.
      rewrite Hres; simpl. unfold grantPermissionsWithRetry.
      destruct (grant_budget_exhausted _ _ _ _ H) as [output ->]. simpl.
      unfold grantPermissionsOnce. simpl.
      by destruct (GrantPermissions _ _ _) as [[o|] [e|]]. }
    split; [exact Hcreate|].
    intros d' w' err. rewrite Hcreate.
    destruct (GrantPermissions _ _ _) as [[o|] [e|]].
    + by intros [= _ <- _].
    + intros HR. apply Read_other_calls in HR. by destruct HR as [-> _].
    + by intros [= _ <- _].
    + by intros [= _ <- _].
  - intros inputResource sel H1 H3 H.
    exists (afterAttempts n
              (listPermissionsAttempt (lakeformationconn meta)
                 (listPermissionsInput d inputResource))
              (mkReadState res sel [] w)).
    split; [by rewrite afterAttempts_list|].
    assert (HRead :
      resourceAwsLakeFormationPermissionsRead meta n d w
      = Ret (readOutcome d
               (listPermissionsOnce (lakeformationconn meta)
                  (listPermissionsInput d inputResource)
                  (afterAttempts n
                     (listPermissionsAttempt (lakeformationconn meta)
                        (listPermissionsInput d inputResource))
                     (mkReadState res sel [] w))))).
    { unfold resourceAwsLakeFormationPermissionsRead.
      rewrite H1, Hres, H3; simpl. unfold listPermissionsWithRetry.
      by rewrite (list_budget_exhausted (lakeformationconn meta)
                    (listPermissionsInput d inputResource) n
                    (mkReadState res sel [] w) H). }
    split; [exact HRead|].
    rewrite HRead.
    pose proof (listPermissionsOnce_readCalls (lakeformationconn meta)
                  (listPermissionsInput d inputResource)
                  (afterAttempts n
                     (listPermissionsAttempt (lakeformationconn meta)
                        (listPermissionsInput d inputResource))
                     (mkReadState res sel [] w))) as Hc.
    destruct (listPermissionsOnce _ _ _) as [st' e].
    pose proof (readOutcome_calls d st' e) as Ho.
    destruct (readOutcome d (st', e)) as [[d' w'] err]. simpl in *.
    subst w'. rewrite Hc, afterAttempts_list. simpl.
    by exists d', err.
Qed.

Lemma one_additional_attempt_after_exhausted_budget_witness :
  resourceAwsLakeFormationPermissionsDelete
    (mkAWSClient concurrentThenOkConn) 1 databaseRequest noCalls
  = Ret (databaseRequest, addRevokeCalls 2 noCalls, None).
Proof.
  apply (one_additional_attempt_after_exhausted_budget
           (mkAWSClient concurrentThenOkConn) 1 (fun _ => "handle")
           databaseRequest noCalls (databaseLocator None "db1")).
  - vm_compute; reflexivity.
  - intros i Hi. assert (i = 0) as -> by lia.
    eexists. split; reflexivity.
Defined.

(** C8 (as stated) fails: the budget of one attempt is exhausted on a
    retryable error, the one additional List call succeeds with no entry,
    and Read returns an error rather than that success. *)
Lemma Read_fails_after_successful_final_attempt :
  classifyListError
    (snd (ListPermissionsPages invalidPrincipalThenEmptyConn 0
            (listPermissionsInput tableRequest (tableLocator None "db1" "t1"))))
  = Some (RetryableError
            (awsError ErrCodeInvalidInputException "Invalid principal"))
  ∧ snd (ListPermissionsPages invalidPrincipalThenEmptyConn 1
           (listPermissionsInput tableRequest (tableLocator None "db1" "t1")))
    = None
  ∧ resourceAwsLakeFormationPermissionsRead
      (mkAWSClient invalidPrincipalThenEmptyConn) 1 tableRequest noCalls
    = Ret (tableRequest, mkRemoteCalls 0 2 0,
           Some (Errorf "error reading Lake Formation permissions: no permissions found")).
Proof. repeat split; vm_compute; reflexivity. Qed.

(* ===================================================================== *)
(** * The entries Read retains, when the answer carries one catalog id *)
(* ===================================================================== *)

Lemma Equal_after_fill (c : option string) (m o o' : Resource) :
  sameCatalog c o → sameCatalog c o' →
  Equal (defaultFill m o) o' = Equal m o'.
Proof.
  intros (Ho1 & Ho2 & Ho3 & Ho4) (Ho1' & Ho2' & Ho3' & Ho4').
  destruct DataLocation_lens as (A1 & B1 & C1).
  destruct Database_lens as (A2 & B2 & C2).
  destruct Table_lens as (A3 & B3 & C3).
  destruct TableWithColumns_lens as (A4 & B4 & C4).
  assert (Hiff : Equal (defaultFill m o) o' = true ↔ Equal m o' = true).
  { rewrite !Equal_spec. unfold defaultFill at 1 3. simpl.
    pose proof (fillCatalogId_twice _ _ A1 C1 (DataLocation m) (DataLocation o)
                  (DataLocation o') c Ho1 Ho1') as F1.
    pose proof (fillCatalogId_twice _ _ A2 C2 (Database m) (Database o)
                  (Database o') c Ho2 Ho2') as F2.
    pose proof (fillCatalogId_twice _ _ A3 C3 (Table m) (Table o)
                  (Table o') c Ho3 Ho3') as F3.
    pose proof (fillCatalogId_twice _ _ A4 C4 (TableWithColumns m)
                  (TableWithColumns o) (TableWithColumns o') c Ho4 Ho4') as F4.
    destruct o' as [oc o1 o2 o3 o4]. simpl in *.
    split; intros [= Hc H1 H2 H3 H4]; f_equal; try done.
    - by apply F1. - by apply F2. - by apply F3. - by apply F4.
    - by apply F1. - by apply F2. - by apply F3. - by apply F4. }
  destruct (Equal (defaultFill m o) o'), (Equal m o'); try done.
  - symmetry. by apply Hiff.
  - by apply Hiff.
Qed.

Lemma compare_unfold (a b : Resource) :
  resourceAwsLakeFormationPermissionsCompareResource a b
  = (defaultFill a b, Equal a b).
Proof. reflexivity. Qed.

Lemma retainEntry_accepted (c : option string) (m0 : Resource)
    (sel0 : option Resource) (st : readState)
    (e : PrincipalResourcePermissions.t) :
  sameCatalog c (PrincipalResourcePermissions.Resource_ e) →
  behavesAs c m0 sel0 st →
  behavesAs c m0 sel0 (retainEntry st (Some e))
  ∧ principalResourcePermissions (retainEntry st (Some e))
    = principalResourcePermissions st
      ++ List.filter (acceptedBy m0 sel0) [e].
Proof.
  intros He [Hm Hs]. unfold retainEntry, acceptedBy, behavesAs.
  assert (Hm' : ∀ o, sameCatalog c o →
            Equal (defaultFill (matchResource st)
                     (PrincipalResourcePermissions.Resource_ e)) o
            = Equal m0 o).
  { intros o Ho. rewrite (Equal_after_fill c _ _ _ He Ho). by apply Hm. }
  destruct (selectPermissionsResource st) as [s|] eqn:Es, sel0 as [s0|];
    try done; rewrite !compare_unfold; cbv beta iota zeta;
    rewrite (Hm _ He); cbn [List.filter].
  - rewrite (Hs _ He).
    destruct (Equal m0 (PrincipalResourcePermissions.Resource_ e));
      cbn [orb selectPermissionsResource matchResource
           principalResourcePermissions]; rewrite ?Es.
    + done.
    + split.
      * split; [exact Hm'|]. intros o Ho.
        rewrite (Equal_after_fill c _ _ _ He Ho). by apply Hs.
      * destruct (Equal s0 _); [done|]. by rewrite app_nil_r.
  - destruct (Equal m0 (PrincipalResourcePermissions.Resource_ e));
      cbn [orb selectPermissionsResource matchResource
           principalResourcePermissions]; rewrite ?Es.
    + done.
    + split; [done|]. by rewrite app_nil_r.
Qed.

Lemma nonNilEntries_cons (p : option PrincipalResourcePermissions.t)
    (resp : list (option PrincipalResourcePermissions.t)) :
  nonNilEntries (p :: resp)
  = match p with
    | Some e => e :: nonNilEntries resp
    | None => nonNilEntries resp
    end.
Proof. by destruct p. Qed.

Lemma retainPage_accepted (c : option string) (m0 : Resource)
    (sel0 : option Resource)
    (resp : list (option PrincipalResourcePermissions.t)) (st : readState) :
  Forall (fun e => sameCatalog c (PrincipalResourcePermissions.Resource_ e))
    (nonNilEntries resp) →
  behavesAs c m0 sel0 st →
  behavesAs c m0 sel0 (retainPage st resp)
  ∧ principalResourcePermissions (retainPage st resp)
    = principalResourcePermissions st
      ++ List.filter (acceptedBy m0 sel0) (nonNilEntries resp).
Proof.
  unfold retainPage. revert st.
  induction resp as [|p resp IH]; intros st HF Hb.
  - split; [done|]. simpl. by rewrite app_nil_r.
  - rewrite nonNilEntries_cons in *. cbn [fold_left].
    destruct p as [e|].
    + inversion HF as [|? ? He HF']; subst.
      destruct (retainEntry_accepted c m0 sel0 st e He Hb) as [Hb' Hp].
      destruct (IH _ HF' Hb') as [Hb'' Hp'].
      split; [exact Hb''|]. rewrite Hp', Hp. cbn [List.filter].
      destruct (acceptedBy m0 sel0 e).
      * by rewrite <- app_assoc.
      * by rewrite app_nil_r.
    + by apply IH.
Qed.

Lemma retainPages_accepted (c : option string) (m0 : Resource)
    (sel0 : option Resource)
    (pages : list (list (option PrincipalResourcePermissions.t)))
    (st : readState) :
  Forall (fun e => sameCatalog c (PrincipalResourcePermissions.Resource_ e))
    (nonNilEntries (concat pages)) →
  behavesAs c m0 sel0 st →
  principalResourcePermissions (fold_left retainPage pages st)
  = principalResourcePermissions st
    ++ List.filter (acceptedBy m0 sel0) (nonNilEntries (concat pages)).
Proof.
  unfold nonNilEntries. revert st.
  induction pages as [|resp pages IH]; intros st HF Hb; simpl.
  - by rewrite app_nil_r.
  - simpl in HF. rewrite omap_app in HF. apply Forall_app in HF as [HF1 HF2].
    destruct (retainPage_accepted c m0 sel0 resp st HF1 Hb) as [Hb' Hp].
    rewrite (IH _ HF2 Hb'), Hp, omap_app, List.filter_app.
    by rewrite <- app_assoc.
Qed.

(** X15.  When the first List call succeeds and every entry of its answer
    carries the same catalog id, the entries Read retains are exactly the
    non-nil entries that the comparator accepts against the declared locator
    or against the auxiliary one, in the order of the answer. *)
Lemma retained_entries_are_the_accepted_ones (meta : AWSClient) (n : nat)
    (input : ListPermissionsInput.t) (m0 : Resource) (sel0 : option Resource)
    (w : RemoteCalls) (c : option string)
    (pages : list (list (option PrincipalResourcePermissions.t))) :
  ListPermissionsPages (lakeformationconn meta) (listCalls w) input
  = (pages, None) →
  Forall (fun e => sameCatalog c (PrincipalResourcePermissions.Resource_ e))
    (nonNilEntries (concat pages)) →
  ∃ st, listPermissionsWithRetry meta n input (mkReadState m0 sel0 [] w)
        = (st, None)
        ∧ principalResourcePermissions st
          = List.filter (acceptedBy m0 sel0) (nonNilEntries (concat pages)).
Proof.
  intros HL HF.
  rewrite listPermissionsWithRetry_first_success by (simpl; by rewrite HL).
  eexists. split; [reflexivity|].
  unfold listPermissionsOnce. simpl readCalls. rewrite HL. simpl.
  rewrite (retainPages_accepted c m0 sel0 pages _ HF); [done|].
  split; [done|]. simpl. by destruct sel0.
Qed.

(** The store written by the comparison shows in Read: for the request on
    database db1, an answer whose first entry is another database of
    another catalog makes Read drop the entry of db1 that follows, which it
    retains when that entry comes first. *)
Lemma Read_drops_entry_after_fill :
  resourceAwsLakeFormationPermissionsRead
    (mkAWSClient (listingConn
       [[Some (PrincipalResourcePermissions.mk ["DESCRIBE"] []
                 (mkDataLakePrincipal (Some "role/X"))
                 (databaseLocator (Some "111122223333") "other"));
         Some (PrincipalResourcePermissions.mk ["SELECT"; "ALTER"] []
                 (mkDataLakePrincipal (Some "role/X"))
                 (databaseLocator (Some "444455556666") "db1"))]]))
    3 databaseRequest noCalls
  = Ret (databaseRequest, mkRemoteCalls 0 1 0,
         Some (Errorf "error reading Lake Formation permissions: no permissions found"))
  ∧ ∃ d', resourceAwsLakeFormationPermissionsRead
            (mkAWSClient (listingConn
               [[Some (PrincipalResourcePermissions.mk ["SELECT"; "ALTER"] []
                         (mkDataLakePrincipal (Some "role/X"))
                         (databaseLocator (Some "444455556666") "db1"));
                 Some (PrincipalResourcePermissions.mk ["DESCRIBE"] []
                         (mkDataLakePrincipal (Some "role/X"))
                         (databaseLocator (Some "111122223333") "other"))]]))
            3 databaseRequest noCalls
          = Ret (d', mkRemoteCalls 0 1 0, None)
          ∧ permissions d' = ["SELECT"; "ALTER"].
Proof.
  split; [vm_compute; reflexivity|].
  eexists. split; [vm_compute; reflexivity|]. reflexivity.
Qed.

(** Where the in-place fill cannot interfere, the length tests of Read count
    the matching entries: when the first List call succeeds and every entry
    of its answer carries the same catalog id, Read returns "no permissions
    found" if no entry is accepted by the comparator against the declared or
    the auxiliary locator, "multiple permissions found for same resource" if
    more than two are, and succeeds exactly when one or two are. *)
Lemma Read_counts_accepted_entries (meta : AWSClient) (n : nat)
    (d : ResourceData) (w : RemoteCalls) (inputResource matchRes : Resource)
    (sel : option Resource) (c : option string)
    (pages : list (list (option PrincipalResourcePermissions.t))) :
  expandLakeFormationResource d true = Ret inputResource →
  expandLakeFormationResource d false = Ret matchRes →
  expandLakeFormationResourceForSelectPermissions d = Ret sel →
  ListPermissionsPages (lakeformationconn meta) (listCalls w)
    (listPermissionsInput d inputResource) = (pages, None) →
  Forall (fun e => sameCatalog c (PrincipalResourcePermissions.Resource_ e))
    (nonNilEntries (concat pages)) →
  let matching :=
    List.filter (acceptedBy matchRes sel) (nonNilEntries (concat pages)) in
  (length matching = 0 →
   resourceAwsLakeFormationPermissionsRead meta n d w
   = Ret (d, incList w,
          Some (Errorf "error reading Lake Formation permissions: no permissions found")))
  ∧ (2 < length matching →
     resourceAwsLakeFormationPermissionsRead meta n d w
     = Ret (d, incList w,
            Some (Errorf "error reading Lake Formation permissions: multiple permissions found for same resource")))
  ∧ ((∃ d' w', resourceAwsLakeFormationPermissionsRead meta n d w
               = Ret (d', w', None))
     ↔ (1 ≤ length matching)%nat ∧ (length matching ≤ 2)%nat).
Proof.
  intros H1 H2 H3 HL HF matching.
  assert (∃ st, listPermissionsWithRetry meta n
                  (listPermissionsInput d inputResource)
                  (mkReadState matchRes sel [] w) = (st, None)
                ∧ principalResourcePermissions st = matching
                ∧ readCalls st = incList w) as (st & Hst & Hp & Hw).
  { rewrite listPermissionsWithRetry_first_success by (simpl; by rewrite HL).
    eexists. split; [reflexivity|]. split.
    - unfold listPermissionsOnce. simpl readCalls. rewrite HL. simpl.
      rewrite (retainPages_accepted c matchRes sel pages _ HF); [done|].
      split; [done|]. simpl. by destruct sel.
    - by rewrite listPermissionsOnce_readCalls. }
  pose proof (Read_counts_retained_entries meta n d w inputResource matchRes
                sel st H1 H2 H3 Hst) as HR.
  by rewrite Hp, Hw in HR.
Qed.


(* ===================================================================== *)
(** * Expansion and flattening of the four locator objects *)
(* ===================================================================== *)

Lemma nonEmptyString_VString (s : string) :
  s ≠ "" → nonEmptyString (Some (VString s)) = Some s.
Proof. intros Hs. unfold nonEmptyString; simpl. by case_decide. Qed.

Lemma nonEmptyString_nilOrNonEmpty (v : option TfValue) :
  nilOrNonEmpty (nonEmptyString v).
Proof.
  unfold nilOrNonEmpty, nonEmptyString.
  destruct (assertString v) as [s|]; [|done].
  case_decide; [done|]. congruence.
Qed.

Lemma nonEmptyString_fmap (v : option string) :
  nilOrNonEmpty v → nonEmptyString (VString <$> v) = v.
Proof.
  destruct v as [s|]; [|done]. intros Hs. simpl.
  apply nonEmptyString_VString. intros ->. by apply Hs.
Qed.

Lemma setIfString_lookup (k k' : string) (v : option string)
    (tfMap : gmap string TfValue) :
  setIfString k v tfMap !! k'
  = if decide (k = k') then
      match v with Some s => Some (VString s) | None => tfMap !! k' end
    else tfMap !! k'.
Proof.
  unfold setIfString. destruct v as [s|].
  - rewrite lookup_insert. by case_decide.
  - by case_decide.
Qed.

Lemma expandStringList_no_empty (l : list TfValue) :
  Forall (fun x => x ≠ "") (expandStringList l).
Proof.
  induction l as [|[| s | |] l IH]; simpl; try done.
  case_decide; [done|]. by constructor.
Qed.

Lemma expandStringList_map_VString (xs : list string) :
  Forall (fun x => x ≠ "") xs → expandStringList (map VString xs) = xs.
Proof.
  induction 1 as [|x xs Hx _ IH]; simpl; [done|].
  case_decide; [done|]. by rewrite IH.
Qed.

Lemma flattenLakeFormationDataLocationResource_lookup
    (o : DataLocationResource.t) :
  ∃ m, flattenLakeFormationDataLocationResource (Some o) = Some m
       ∧ m !! "catalog_id" = VString <$> DataLocationResource.CatalogId o
       ∧ m !! "arn" = VString <$> DataLocationResource.ResourceArn o.
Proof.
  destruct o as [[c|] [a|]]; eexists; (split; [reflexivity|]);
    split; vm_compute; reflexivity.
Qed.

Lemma DataLocation_round_trip (o : DataLocationResource.t) :
  nilOrNonEmpty (DataLocationResource.CatalogId o) →
  nilOrNonEmpty (DataLocationResource.ResourceArn o) →
  expandLakeFormationDataLocationResource
    (flattenLakeFormationDataLocationResource (Some o)) = Some o.
Proof.
  intros Hc Ha.
  destruct (flattenLakeFormationDataLocationResource_lookup o)
    as (m & -> & E1 & E2).
  unfold expandLakeFormationDataLocationResource.
  rewrite E1, E2, !nonEmptyString_fmap by done. by destruct o.
Qed.

(** X1.  Flattening a data-location object and expanding the result gives
    the object back, provided none of its strings is empty (expansion drops
    an empty string). *)
Theorem DataLocation_flatten_expand (o : DataLocationResource.t) :
  nilOrNonEmpty (DataLocationResource.CatalogId o) →
  nilOrNonEmpty (DataLocationResource.ResourceArn o) →
  expandLakeFormationDataLocationResource
    (flattenLakeFormationDataLocationResource (Some o)) = Some o.
Proof. apply DataLocation_round_trip. Qed.

Lemma flattenLakeFormationDatabaseResource_lookup (o : DatabaseResource.t) :
  ∃ m, flattenLakeFormationDatabaseResource (Some o) = Some m
       ∧ m !! "catalog_id" = VString <$> DatabaseResource.CatalogId o
       ∧ m !! "name" = VString <$> DatabaseResource.Name o.
Proof.
  destruct o as [[c|] [a|]]; eexists; (split; [reflexivity|]);
    split; vm_compute; reflexivity.
Qed.

Lemma Database_round_trip (o : DatabaseResource.t) :
  nilOrNonEmpty (DatabaseResource.CatalogId o) →
  nilOrNonEmpty (DatabaseResource.Name o) →
  expandLakeFormationDatabaseResource
    (flattenLakeFormationDatabaseResource (Some o)) = Some o.
Proof.
  intros Hc Ha.
  destruct (flattenLakeFormationDatabaseResource_lookup o)
    as (m & -> & E1 & E2).
  unfold expandLakeFormationDatabaseResource.
  rewrite E1, E2, !nonEmptyString_fmap by done. by destruct o.
Qed.

(** X2.  Flattening a database object and expanding the result gives the
    object back, provided none of its strings is empty. *)
Theorem Database_flatten_expand (o : DatabaseResource.t) :
  nilOrNonEmpty (DatabaseResource.CatalogId o) →
  nilOrNonEmpty (DatabaseResource.Name o) →
  expandLakeFormationDatabaseResource
    (flattenLakeFormationDatabaseResource (Some o)) = Some o.
Proof. apply Database_round_trip. Qed.

Lemma flattenLakeFormationTableResource_lookup (o : TableResource.t) :
  ∃ m, flattenLakeFormationTableResource (Some o) = Some m
       ∧ m !! "catalog_id" = VString <$> TableResource.CatalogId o
       ∧ m !! "database_name" = VString <$> TableResource.DatabaseName o
       ∧ m !! "name" = VString <$> TableResource.Name o
       ∧ m !! "wildcard"
         = (fun _ => VBool true) <$> TableResource.TableWildcard_ o.
Proof.
  destruct o as [[c|] [db|] [n|] [w|]]; eexists; (split; [reflexivity|]);
    repeat split; vm_compute; reflexivity.
Qed.

Lemma Table_round_trip (o : TableResource.t) :
  nilOrNonEmpty (TableResource.CatalogId o) →
  nilOrNonEmpty (TableResource.DatabaseName o) →
  nilOrNonEmpty (TableResource.Name o) →
  expandLakeFormationTableResource
    (flattenLakeFormationTableResource (Some o)) = Some o.
Proof.
  intros Hc Hd Hn.
  destruct (flattenLakeFormationTableResource_lookup o)
    as (m & -> & E1 & E2 & E3 & E4).
  unfold expandLakeFormationTableResource.
  rewrite E1, E2, E3, E4, !nonEmptyString_fmap by done.
  by destruct o as [c db n [[]|]].
Qed.

(** X3.  Flattening a table object and expanding the result gives the
    object back, wildcard included, provided none of its strings is empty. *)
Theorem Table_flatten_expand (o : TableResource.t) :
  nilOrNonEmpty (TableResource.CatalogId o) →
  nilOrNonEmpty (TableResource.DatabaseName o) →
  nilOrNonEmpty (TableResource.Name o) →
  expandLakeFormationTableResource
    (flattenLakeFormationTableResource (Some o)) = Some o.
Proof. apply Table_round_trip. Qed.

Lemma flattenLakeFormationTableWithColumnsResource_lookup
    (o : TableWithColumnsResource.t) :
  ∃ m, flattenLakeFormationTableWithColumnsResource (Some o) = Some m
       ∧ m !! "catalog_id" = VString <$> TableWithColumnsResource.CatalogId o
       ∧ m !! "column_names"
         = Some (VList (flattenStringList (TableWithColumnsResource.ColumnNames o)))
       ∧ m !! "database_name"
         = VString <$> TableWithColumnsResource.DatabaseName o
       ∧ m !! "excluded_column_names"
         = (fun cw => VList (flattenStringList
                               (ColumnWildcard.ExcludedColumnNames cw)))
             <$> TableWithColumnsResource.ColumnWildcard_ o
       ∧ m !! "name" = VString <$> TableWithColumnsResource.Name o.
Proof.
  destruct o as [[c|] cols [w|] [db|] [n|]]; eexists;
    (split; [reflexivity|]); repeat split; vm_compute; reflexivity.
Qed.

Lemma nonEmptyList_flattenStringList (l : option (list string)) :
  nonEmptyList (Some (VList (flattenStringList l)))
  = Ret match l with
        | Some (x :: xs) => Some (map VString (x :: xs))
        | _ => None
        end.
Proof. by destruct l as [[|x xs]|]. Qed.

(** What flattening followed by expansion makes of any table-with-columns
    object. *)
Lemma TableWithColumns_flatten_expand_any (o : TableWithColumnsResource.t) :
  expandLakeFormationTableWithColumnsResource
    (flattenLakeFormationTableWithColumnsResource (Some o))
  = Ret (Some (TableWithColumnsResource.mk
                 (nonEmptyString (VString <$> TableWithColumnsResource.CatalogId o))
                 (match TableWithColumnsResource.ColumnNames o with
                  | Some (x :: xs) =>
                      Some (expandStringList (map VString (x :: xs)))
                  | _ => None
                  end)
                 (match TableWithColumnsResource.ColumnWildcard_ o with
                  | Some cw =>
                      match ColumnWildcard.ExcludedColumnNames cw with
                      | Some (x :: xs) =>
                          Some (ColumnWildcard.mk
                                  (Some (expandStringList (map VString (x :: xs)))))
                      | _ => None
                      end
                  | None => None
                  end)
                 (nonEmptyString (VString <$> TableWithColumnsResource.DatabaseName o))
                 (nonEmptyString (VString <$> TableWithColumnsResource.Name o)))).
Proof.
  destruct (flattenLakeFormationTableWithColumnsResource_lookup o)
    as (m & -> & E1 & E2 & E3 & E4 & E5).
  unfold expandLakeFormationTableWithColumnsResource.
  rewrite E1, E2, E3, E4, E5, nonEmptyList_flattenStringList.
  destruct o as [c cols w db n].
  cbn [TableWithColumnsResource.CatalogId TableWithColumnsResource.ColumnNames
       TableWithColumnsResource.ColumnWildcard_
       TableWithColumnsResource.DatabaseName TableWithColumnsResource.Name].
  destruct w as [[ex]|].
  - cbn [fmap option_fmap option_map ColumnWildcard.ExcludedColumnNames].
    rewrite nonEmptyList_flattenStringList.
    by destruct cols as [[|? ?]|], ex as [[|? ?]|].
  - by destruct cols as [[|? ?]|].
Qed.

Lemma TableWithColumns_round_trip (o : TableWithColumnsResource.t) :
  survivesFlatten o →
  expandLakeFormationTableWithColumnsResource
    (flattenLakeFormationTableWithColumnsResource (Some o)) = Ret (Some o).
Proof.
  intros (Hc & Hd & Hn & Hcols & Hw).
  rewrite TableWithColumns_flatten_expand_any, !nonEmptyString_fmap by done.
  destruct o as [c cols w db n].
  cbn [TableWithColumnsResource.CatalogId TableWithColumnsResource.ColumnNames
       TableWithColumnsResource.ColumnWildcard_
       TableWithColumnsResource.DatabaseName TableWithColumnsResource.Name] in *.
  assert (match cols with
          | Some (x :: xs) => Some (expandStringList (map VString (x :: xs)))
          | _ => None
          end = cols) as ->.
  { destruct cols as [[|x xs]|]; try done.
    by rewrite expandStringList_map_VString. }
  assert (match w with
          | Some cw =>
              match ColumnWildcard.ExcludedColumnNames cw with
              | Some (x :: xs) =>
                  Some (ColumnWildcard.mk
                          (Some (expandStringList (map VString (x :: xs)))))
              | _ => None
              end
          | None => None
          end = w) as ->.
  { destruct w as [[[[|x xs]|]]|]; try done.
    cbn [ColumnWildcard.ExcludedColumnNames] in *.
    by rewrite expandStringList_map_VString. }
  done.
Qed.

(** X4.  Flattening a table-with-columns object and expanding the result
    gives the object back, provided none of its strings is empty, its column
    names are nil or a filled list, and its column wildcard, if any,
    excludes at least one column. *)
Theorem TableWithColumns_flatten_expand (o : TableWithColumnsResource.t) :
  survivesFlatten o →
  expandLakeFormationTableWithColumnsResource
    (flattenLakeFormationTableWithColumnsResource (Some o)) = Ret (Some o).
Proof. apply TableWithColumns_round_trip. Qed.

Lemma TableWithColumns_flatten_expand_witness :
  survivesFlatten
    (TableWithColumnsResource.mk (Some "111122223333") (Some ["c1"; "c2"]) None
       (Some "db1") (Some "t1"))
  ∧ expandLakeFormationTableWithColumnsResource
      (flattenLakeFormationTableWithColumnsResource
         (Some (TableWithColumnsResource.mk (Some "111122223333")
                  (Some ["c1"; "c2"]) None (Some "db1") (Some "t1"))))
    = Ret (Some (TableWithColumnsResource.mk (Some "111122223333")
                   (Some ["c1"; "c2"]) None (Some "db1") (Some "t1"))).
Proof.
  assert (H : survivesFlatten
    (TableWithColumnsResource.mk (Some "111122223333") (Some ["c1"; "c2"]) None
       (Some "db1") (Some "t1"))).
  { repeat split; try done. simpl. by repeat constructor. }
  split; [exact H|].
  apply (TableWithColumns_flatten_expand _ H).
Defined.

(** X5.  A column wildcard that excludes no column does not survive
    flattening followed by expansion: the flattened block carries an empty
    exclusion list, which the expansion takes for no wildcard at all.  The
    expansion of a flattened object never panics. *)
Theorem TableWithColumns_empty_wildcard_lost (o : TableWithColumnsResource.t)
    (cw : ColumnWildcard.t) :
  TableWithColumnsResource.ColumnWildcard_ o = Some cw →
  ColumnWildcard.ExcludedColumnNames cw = None
  ∨ ColumnWildcard.ExcludedColumnNames cw = Some [] →
  ∃ o', expandLakeFormationTableWithColumnsResource
          (flattenLakeFormationTableWithColumnsResource (Some o))
        = Ret (Some o')
        ∧ TableWithColumnsResource.ColumnWildcard_ o' = None.
Proof.
  intros Hw Hex. rewrite TableWithColumns_flatten_expand_any.
  eexists. split; [reflexivity|]. simpl. rewrite Hw.
  by destruct Hex as [-> | ->].
Qed.

Lemma TableWithColumns_empty_wildcard_lost_witness :
  ∃ o', expandLakeFormationTableWithColumnsResource
          (flattenLakeFormationTableWithColumnsResource
             (TableWithColumns (wildcardColumnsLocator (Some "111122223333") "db1" "t1")))
        = Ret (Some o')
        ∧ TableWithColumnsResource.ColumnWildcard_ o' = None.
Proof.
  apply (TableWithColumns_empty_wildcard_lost
           (TableWithColumnsResource.mk (Some "111122223333") None
              (Some (ColumnWildcard.mk None)) (Some "db1") (Some "t1"))
           (ColumnWildcard.mk None)).
  - reflexivity.
  - left; reflexivity.
Defined.

Lemma DataLocation_flatten_expand_witness :
  expandLakeFormationDataLocationResource
    (flattenLakeFormationDataLocationResource
       (Some (DataLocationResource.mk None (Some "arn:aws:s3:::bucket"))))
  = Some (DataLocationResource.mk None (Some "arn:aws:s3:::bucket")).
Proof.
  apply (DataLocation_flatten_expand
           (DataLocationResource.mk None (Some "arn:aws:s3:::bucket")));
    unfold nilOrNonEmpty; simpl; discriminate.
Defined.

Lemma Database_flatten_expand_witness :
  expandLakeFormationDatabaseResource
    (flattenLakeFormationDatabaseResource
       (Some (DatabaseResource.mk (Some "111122223333") (Some "db1"))))
  = Some (DatabaseResource.mk (Some "111122223333") (Some "db1")).
Proof.
  apply (Database_flatten_expand
           (DatabaseResource.mk (Some "111122223333") (Some "db1")));
    unfold nilOrNonEmpty; simpl; discriminate.
Defined.

Lemma Table_flatten_expand_witness :
  expandLakeFormationTableResource
    (flattenLakeFormationTableResource
       (Some (TableResource.mk (Some "111122223333") (Some "db1") None
                (Some mkTableWildcard))))
  = Some (TableResource.mk (Some "111122223333") (Some "db1") None
            (Some mkTableWildcard)).
Proof.
  apply (Table_flatten_expand
           (TableResource.mk (Some "111122223333") (Some "db1") None
              (Some mkTableWildcard)));
    unfold nilOrNonEmpty; simpl; discriminate.
Defined.

Lemma nonEmptyList_Ret_listTyped (v : option TfValue)
    (r : option (list TfValue)) :
  nonEmptyList v = Ret r → listTyped v.
Proof. by destruct v as [[| | |l]|]. Qed.

(** X6.  Whatever the request, a locator that the expansion returns holds
    no empty string: every string of a block is sent to the service as a
    non-empty value or not at all, and the column lists hold non-empty names
    only. *)
Theorem expandLakeFormationResource_no_empty_string (d : ResourceData)
    (squash : bool) (r : Resource) :
  expandLakeFormationResource d squash = Ret r → noEmptyField r.
Proof.
  unfold expandLakeFormationResource.
  destruct (expandLakeFormationResourceType d).
  - intros [= <-]. by repeat split.
  - destruct (firstMap (data_location d)) as [m|]; [|done].
    intros [= <-]. repeat split; try done;
      injection H as <-; apply nonEmptyString_nilOrNonEmpty.
  - destruct (firstMap (database d)) as [m|]; [|done].
    intros [= <-]. repeat split; try done;
      injection H as <-; apply nonEmptyString_nilOrNonEmpty.
  - destruct (firstMap (table d)) as [m|]; [|done].
    intros [= <-]. repeat split; try done;
      injection H as <-; apply nonEmptyString_nilOrNonEmpty.
  - destruct squash.
    + destruct (firstMap (table_with_columns d)) as [m|]; [|done].
      intros [= <-]. repeat split; try done;
        injection H as <-; apply nonEmptyString_nilOrNonEmpty.
    + destruct (firstMap (table_with_columns d)) as [m|]; [|done]. simpl.
      destruct (nonEmptyList (m !! "column_names")) as [cols|]; [|done].
      destruct (nonEmptyList (m !! "excluded_column_names")) as [excl|];
        [|done].
      intros [= <-]. repeat split; try done; simpl in *.
      1-3: injection H as <-; apply nonEmptyString_nilOrNonEmpty.
      * injection H as <-. simpl.
        destruct cols; simpl; [apply expandStringList_no_empty|done].
      * injection H as <-. simpl. intros cw.
        destruct excl; simpl; [|done]. intros [= <-]. simpl.
        apply expandStringList_no_empty.
Qed.

Lemma expandLakeFormationResource_no_empty_string_witness :
  noEmptyField (tableLocator None "db1" "t1").
Proof.
  apply (expandLakeFormationResource_no_empty_string tableRequest false).
  vm_compute; reflexivity.
Defined.

(** X7.  The expansion returns a locator exactly on the requests that are
    valid; on the others it panics.  With squashing it returns one exactly
    when a request that falls back to table-with-columns carries that
    block. *)
Theorem expandLakeFormationResource_completes_iff (d : ResourceData) :
  ((∃ r, expandLakeFormationResource d false = Ret r) ↔ validRequest d)
  ∧ ((∃ r, expandLakeFormationResource d true = Ret r)
     ↔ (expandLakeFormationResourceType d = DataLakeResourceTypeTableWithColumns →
        blockPresent (table_with_columns d) = true)).
Proof.
  split; split.
  - intros [r Hr] Ht. unfold expandLakeFormationResource in Hr.
    rewrite Ht in Hr.
    destruct (table_with_columns d) as [|[m|] rest]; try done.
    simpl in Hr.
    destruct (nonEmptyList (m !! "column_names")) as [cols|] eqn:Ec; [|done].
    destruct (nonEmptyList (m !! "excluded_column_names")) as [excl|] eqn:Ee;
      [|done].
    exists m, rest. split; [done|].
    split; eapply nonEmptyList_Ret_listTyped; eassumption.
  - intros Hv.
    destruct (expandLakeFormationResource_populates d false Hv) as (r & Hr & _).
    by exists r.
  - intros [r Hr] Ht. unfold expandLakeFormationResource in Hr.
    rewrite Ht in Hr.
    by destruct (table_with_columns d) as [|[m|] rest].
  - intros Hb. unfold expandLakeFormationResource.
    unfold expandLakeFormationResourceType in *.
    destruct (catalog_resource d); [by eexists|].
    destruct (blockPresent (data_location d)) eqn:E1.
    { destruct (blockPresent_firstMap _ E1) as [m ->]. by eexists. }
    destruct (blockPresent (database d)) eqn:E2.
    { destruct (blockPresent_firstMap _ E2) as [m ->]. by eexists. }
    destruct (blockPresent (table d)) eqn:E3.
    { destruct (blockPresent_firstMap _ E3) as [m ->]. by eexists. }
    destruct (blockPresent_firstMap _ (Hb eq_refl)) as [m ->]. by eexists.
Qed.

(** X8.  A request that declares no locator at all (no catalog flag and
    none of the four blocks) makes Create, Read and Delete panic, on the
    index into the empty table-with-columns block, before any remote
    call. *)
Theorem no_locator_panics (meta : AWSClient) (n : nat)
    (handle : GrantPermissionsInput.t → string) (d : ResourceData)
    (w : RemoteCalls) :
  catalog_resource d = false →
  data_location d = [] → database d = [] → table d = [] →
  table_with_columns d = [] →
  resourceAwsLakeFormationPermissionsCreate meta n handle d w = Panic
  ∧ resourceAwsLakeFormationPermissionsRead meta n d w = Panic
  ∧ resourceAwsLakeFormationPermissionsDelete meta n d w = Panic.
Proof.
  intros H1 H2 H3 H4 H5.
  assert (He : ∀ squash, expandLakeFormationResource d squash = Panic).
  { intros squash. unfold expandLakeFormationResource,
      expandLakeFormationResourceType.
    rewrite H1, H2, H3, H4, H5. by destruct squash. }
  unfold resourceAwsLakeFormationPermissionsCreate,
    resourceAwsLakeFormationPermissionsRead,
    resourceAwsLakeFormationPermissionsDelete.
  by rewrite !He.
Qed.

Lemma no_locator_panics_witness :
  resourceAwsLakeFormationPermissionsDelete
    (mkAWSClient absentGrantConn) 3
    (mkResourceData "" false "" false [] [] ["SELECT"] [] "role/X" [] [])
    noCalls = Panic.
Proof.
  apply (no_locator_panics (mkAWSClient absentGrantConn) 3 (fun _ => "h")
           (mkResourceData "" false "" false [] [] ["SELECT"] [] "role/X" [] [])
           noCalls); reflexivity.
Defined.

Lemma setLocatorFields_blocks (r : Resource) (d : ResourceData) :
  catalog_resource (setLocatorFields r d)
  = (if Catalog r is Some _ then true else catalog_resource d)
  ∧ data_location (setLocatorFields r d)
    = (if DataLocation r is Some o
       then [flattenLakeFormationDataLocationResource (Some o)] else [])
  ∧ database (setLocatorFields r d)
    = (if Database r is Some o
       then [flattenLakeFormationDatabaseResource (Some o)] else [])
  ∧ table (setLocatorFields r d)
    = (if TableWithColumns r is Some _ then table d
       else if Table r is Some o
            then [flattenLakeFormationTableResource (Some o)] else [])
  ∧ table_with_columns (setLocatorFields r d)
    = (if TableWithColumns r is Some o
       then [flattenLakeFormationTableWithColumnsResource (Some o)]
       else if Table r is Some _ then [] else table_with_columns d).
Proof.
  by destruct r as [[c|] [o1|] [o2|] [o3|] [o4|]].
Qed.

Lemma setLocatorFields_then_expand (r : Resource) (d : ResourceData)
    (t : DataLakeResourceType) :
  populatedFields r = [t] →
  locatorSurvivesFlatten r →
  (t ≠ DataLakeResourceTypeCatalog → catalog_resource d = false) →
  (t = DataLakeResourceTypeTableWithColumns → blockPresent (table d) = false) →
  expandLakeFormationResource (setLocatorFields r d) false = Ret r.
Proof.
  intros Hp (S1 & S2 & S3 & S4) Hcat Htab.
  destruct (setLocatorFields_blocks r d) as (B0 & B1 & B2 & B3 & B4).
  unfold expandLakeFormationResource, expandLakeFormationResourceType.
  rewrite B0, B1, B2, B3, B4. clear B0 B1 B2 B3 B4.
  destruct r as [[[]|] [o1|] [o2|] [o3|] [o4|]]; simpl in Hp; try done;
    injection Hp as <-;
    cbn [Catalog DataLocation Database Table TableWithColumns];
    rewrite ?Hcat, ?Htab by done.
  - destruct (S1 o1 eq_refl) as [A1 A2].
    pose proof (DataLocation_round_trip o1 A1 A2) as Hrt.
    destruct (flattenLakeFormationDataLocationResource (Some o1)) as [m|];
      [|done].
    cbn [blockPresent firstMap go_bind]. by rewrite Hrt.
  - destruct (S2 o2 eq_refl) as [A1 A2].
    pose proof (Database_round_trip o2 A1 A2) as Hrt.
    destruct (flattenLakeFormationDatabaseResource (Some o2)) as [m|];
      [|done].
    cbn [blockPresent firstMap go_bind]. by rewrite Hrt.
  - destruct (S3 o3 eq_refl) as (A1 & A2 & A3).
    pose proof (Table_round_trip o3 A1 A2 A3) as Hrt.
    destruct (flattenLakeFormationTableResource (Some o3)) as [m|];
      [|done].
    cbn [blockPresent firstMap go_bind]. by rewrite Hrt.
  - pose proof (TableWithColumns_round_trip o4 (S4 o4 eq_refl)) as Hrt.
    destruct (flattenLakeFormationTableWithColumnsResource (Some o4)) as [m|];
      [|done].
    cbn [blockPresent firstMap go_bind]. by rewrite Hrt.
Qed.

(** X9.  What Read writes back expands again to the locator it was written
    from: for a locator with exactly one populated object, which survives
    flattening, the request after the write-back expands, without
    squashing, to that locator.  This needs the catalog flag of the request
    to be off unless the locator is the catalog, and, for a
    table-with-columns locator, the table block of the request to be empty,
    because the write-back leaves both as they were. *)
Theorem written_back_locator_expands_again (r : Resource) (d : ResourceData)
    (t : DataLakeResourceType) :
  populatedFields r = [t] →
  locatorSurvivesFlatten r →
  (t ≠ DataLakeResourceTypeCatalog → catalog_resource d = false) →
  (t = DataLakeResourceTypeTableWithColumns → blockPresent (table d) = false) →
  expandLakeFormationResource (setLocatorFields r d) false = Ret r.
Proof. apply setLocatorFields_then_expand. Qed.

Lemma written_back_locator_expands_again_witness :
  expandLakeFormationResource
    (setLocatorFields (databaseLocator (Some "111122223333") "db1")
       databaseRequest) false
  = Ret (databaseLocator (Some "111122223333") "db1").
Proof.
  apply (written_back_locator_expands_again
           (databaseLocator (Some "111122223333") "db1") databaseRequest
           DataLakeResourceTypeDatabase).
  - reflexivity.
  - repeat split; try done; injection H as <-; simpl; discriminate.
  - reflexivity.
  - discriminate.
Defined.

(* ===================================================================== *)
(** * More on the comparison *)
(* ===================================================================== *)

Section LensOrder.

Context {A : Type}.
Variable getCat : A → option string.
Variable setCat : option string → A → A.
Hypothesis get_set : ∀ c x, getCat (setCat c x) = c.
Hypothesis set_get : ∀ x, setCat (getCat x) x = x.
Hypothesis set_set : ∀ c c' x, setCat c (setCat c' x) = setCat c x.

Lemma fillCatalogId_trans (x y z : option A) :
  fillCatalogId getCat setCat x y = y →
  fillCatalogId getCat setCat y z = z →
  fillCatalogId getCat setCat x z = z.
Proof.
  destruct x as [i|]; [|by intros <-].
  destruct y as [j|]; [|done].
  destruct z as [k|]; [|intros _ H; simpl in H; discriminate H].
  simpl. destruct (getCat i) eqn:Ei.
  - intros [= ->]. by rewrite Ei.
  - intros [= Hj]. destruct (getCat j) eqn:Ej.
    + intros [= <-]. by rewrite Ej, Hj.
    + intros [= Hk]. f_equal. rewrite <- Hk at 2. rewrite <- Hj.
      by rewrite set_set.
Qed.

Lemma fillCatalogId_cleared_same (x y : option A) :
  setCat None <$> fillCatalogId getCat setCat x y = setCat None <$> x.
Proof.
  destruct x as [i|]; [|done]. destruct y as [j|]; [|done].
  simpl. destruct (getCat i); [done|]. simpl. by rewrite set_set.
Qed.

Lemma fillCatalogId_chain (x y z : option A) :
  fillCatalogId getCat setCat x y = y →
  fillCatalogId getCat setCat y z = z →
  x = y ∨ y = z.
Proof.
  destruct x as [i|]; [|intros <-; by left].
  destruct y as [j|]; [|done].
  destruct z as [k|]; [|intros _ H; simpl in H; discriminate H].
  simpl. destruct (getCat j) eqn:Ej; [intros _ [= ->]; by right|].
  destruct (getCat i) eqn:Ei; [intros [= ->]; by left|].
  intros [= Hj] _. left. by rewrite <- Hj, <- Ei, set_get.
Qed.

Lemma fillCatalogId_chain_nil (x z : option A) :
  fillCatalogId getCat setCat x None = None →
  fillCatalogId getCat setCat None z = z →
  x = None ∧ z = None.
Proof. destruct x; simpl; [done|]. by intros _ <-. Qed.

End LensOrder.

(** X10.  The comparison is transitive: if a equals b and b equals c, then
    a equals c.  With reflexivity this makes it a preorder; it is not
    symmetric. *)
Theorem Equal_transitive (a b c : Resource) :
  Equal a b = true → Equal b c = true → Equal a c = true.
Proof.
  rewrite !Equal_spec. unfold defaultFill.
  destruct DataLocation_lens as (A1 & B1 & C1).
  destruct Database_lens as (A2 & B2 & C2).
  destruct Table_lens as (A3 & B3 & C3).
  destruct TableWithColumns_lens as (A4 & B4 & C4).
  destruct b as [bc b1 b2 b3 b4], c as [cc c1 c2 c3 c4]. simpl.
  intros [= Hc H1 H2 H3 H4] [= Hc' H1' H2' H3' H4']. f_equal.
  - congruence.
  - by apply (fillCatalogId_trans _ _ C1 _ b1).
  - by apply (fillCatalogId_trans _ _ C2 _ b2).
  - by apply (fillCatalogId_trans _ _ C3 _ b3).
  - by apply (fillCatalogId_trans _ _ C4 _ b4).
Qed.

Lemma Equal_transitive_witness :
  databaseAndTableLocator None None
  ≠ databaseAndTableLocator (Some "111122223333") None
  ∧ databaseAndTableLocator (Some "111122223333") None
    ≠ databaseAndTableLocator (Some "111122223333") (Some "111122223333")
  ∧ Equal (databaseAndTableLocator None None)
          (databaseAndTableLocator (Some "111122223333") (Some "111122223333"))
    = true.
Proof.
  split; [discriminate|]. split; [discriminate|].
  apply (Equal_transitive
           (databaseAndTableLocator None None)
           (databaseAndTableLocator (Some "111122223333") None)
           (databaseAndTableLocator (Some "111122223333") (Some "111122223333")));
    reflexivity.
Defined.

(** On locators with at most one field populated, which are the ones the
    expansion builds, a chain of two accepted comparisons has two equal
    neighbours: the chains between three different locators need two
    populated objects. *)
Lemma Equal_chain_one_object (a b c : Resource) :
  (length (populatedFields b) ≤ 1)%nat →
  Equal a b = true → Equal b c = true → a = b ∨ b = c.
Proof.
  rewrite !Equal_spec. unfold defaultFill.
  destruct DataLocation_lens as (A1 & B1 & _).
  destruct Database_lens as (A2 & B2 & _).
  destruct Table_lens as (A3 & B3 & _).
  destruct TableWithColumns_lens as (A4 & B4 & _).
  destruct a as [ac a1 a2 a3 a4], b as [bc b1 b2 b3 b4],
    c as [cc c1 c2 c3 c4]. simpl.
  intros Hlen [= Hc H1 H2 H3 H4] [= Hc' H1' H2' H3' H4']. subst ac cc.
  pose proof (fillCatalogId_chain _ _ B1 _ _ _ H1 H1') as D1.
  pose proof (fillCatalogId_chain _ _ B2 _ _ _ H2 H2') as D2.
  pose proof (fillCatalogId_chain _ _ B3 _ _ _ H3 H3') as D3.
  pose proof (fillCatalogId_chain _ _ B4 _ _ _ H4 H4') as D4.
  destruct bc, b1 as [o1|], b2 as [o2|], b3 as [o3|], b4 as [o4|];
    simpl in Hlen; try lia;
    repeat match goal with
           | H : fillCatalogId _ _ ?x None = None,
             H' : fillCatalogId _ _ None ?z = ?z |- _ =>
               destruct (fillCatalogId_chain_nil _ _ _ _ H H') as [-> ->];
               clear H H'
           end;
    first [ by left
          | destruct D1 as [->| ->]; by auto
          | destruct D2 as [->| ->]; by auto
          | destruct D3 as [->| ->]; by auto
          | destruct D4 as [->| ->]; by auto ].
Qed.

Lemma clearCatalogId_defaultFill (a b : Resource) :
  clearCatalogId (defaultFill a b) = clearCatalogId a.
Proof.
  destruct DataLocation_lens as (A1 & B1 & C1).
  destruct Database_lens as (A2 & B2 & C2).
  destruct Table_lens as (A3 & B3 & C3).
  destruct TableWithColumns_lens as (A4 & B4 & C4).
  unfold clearCatalogId, defaultFill. simpl.
  by rewrite !fillCatalogId_cleared_same.
Qed.

Lemma populatedFields_clearCatalogId (a : Resource) :
  populatedFields (clearCatalogId a) = populatedFields a.
Proof. by destruct a as [[?|] [?|] [?|] [?|] [?|]]. Qed.

Lemma Equal_true_cleared (a b : Resource) :
  Equal a b = true →
  clearCatalogId a = clearCatalogId b
  ∧ populatedFields a = populatedFields b.
Proof.
  intros H. apply Equal_spec in H.
  assert (Hc : clearCatalogId a = clearCatalogId b).
  { rewrite <- (clearCatalogId_defaultFill a b). by rewrite H. }
  split; [exact Hc|].
  by rewrite <- (populatedFields_clearCatalogId a), Hc,
    populatedFields_clearCatalogId.
Qed.

(** X11.  Two locators that compare equal differ at most in their catalog
    ids: with the catalog ids cleared they are the same locator, and so
    they populate the same variants.  Locators of different variants never
    compare equal. *)
Theorem Equal_same_but_catalog (a b : Resource) :
  Equal a b = true →
  clearCatalogId a = clearCatalogId b
  ∧ populatedFields a = populatedFields b.
Proof. apply Equal_true_cleared. Qed.

Lemma Equal_same_but_catalog_witness :
  clearCatalogId (databaseLocator None "db1")
  = clearCatalogId (databaseLocator (Some "111122223333") "db1")
  ∧ populatedFields (databaseLocator None "db1")
    = populatedFields (databaseLocator (Some "111122223333") "db1").
Proof.
  apply (Equal_same_but_catalog (databaseLocator None "db1")
           (databaseLocator (Some "111122223333") "db1")).
  reflexivity.
Defined.

Lemma HeapModel_compare_refines_witness :
  HeapModel.load
    (fst (HeapModel.resourceAwsLakeFormationPermissionsCompareResource
            sampleHeap (databaseAt 1) (databaseAt 3)))
    (databaseAt 1)
  = Some (defaultFill (databaseLocator None "db1")
            (databaseLocator (Some "444455556666") "db1"))
  ∧ HeapModel.load
      (fst (HeapModel.resourceAwsLakeFormationPermissionsCompareResource
              sampleHeap (databaseAt 1) (databaseAt 3)))
      (databaseAt 3)
    = Some (databaseLocator (Some "444455556666") "db1")
  ∧ snd (HeapModel.resourceAwsLakeFormationPermissionsCompareResource
           sampleHeap (databaseAt 1) (databaseAt 3))
    = Equal (databaseLocator None "db1")
        (databaseLocator (Some "444455556666") "db1").
Proof.
  apply (HeapModel_compare_refines sampleHeap (databaseAt 1) (databaseAt 3)
           (databaseLocator None "db1")
           (databaseLocator (Some "444455556666") "db1"));
    vm_compute; reflexivity.
Defined.

(* ===================================================================== *)
(** * More on the entries Read retains *)
(* ===================================================================== *)

Lemma retainEntry_sublist (st : readState)
    (p : option PrincipalResourcePermissions.t) :
  ∃ l, principalResourcePermissions (retainEntry st p)
       = principalResourcePermissions st ++ l
       ∧ sublist l (nonNilEntries [p]).
Proof.
  destruct p as [e|].
  - unfold retainEntry. rewrite compare_unfold. cbv beta iota zeta.
    destruct (Equal (matchResource st) _).
    + exists [e]. split; [done|]. reflexivity.
    + destruct (selectPermissionsResource st) as [s|].
      * rewrite compare_unfold. cbv beta iota zeta.
        destruct (Equal s _); cbn [principalResourcePermissions].
        -- exists [e]. split; [done|]. reflexivity.
        -- exists []. split; [by rewrite app_nil_r|]. apply sublist_nil_l.
      * exists []. split; [by rewrite app_nil_r|]. apply sublist_nil_l.
  - exists []. split; [simpl; by rewrite app_nil_r|]. apply sublist_nil_l.
Qed.

Lemma retainPage_sublist
    (resp : list (option PrincipalResourcePermissions.t)) (st : readState) :
  ∃ l, principalResourcePermissions (retainPage st resp)
       = principalResourcePermissions st ++ l
       ∧ sublist l (nonNilEntries resp).
Proof.
  unfold retainPage. revert st.
  induction resp as [|p resp IH]; intros st.
  - exists []. split; [by rewrite app_nil_r|]. done.
  - cbn [fold_left].
    destruct (retainEntry_sublist st p) as (l1 & E1 & S1).
    destruct (IH (retainEntry st p)) as (l2 & E2 & S2).
    exists (l1 ++ l2). split; [by rewrite E2, E1, app_assoc|].
    change (p :: resp) with ([p] ++ resp).
    unfold nonNilEntries in *. rewrite omap_app. by apply sublist_app.
Qed.

(** X13.  One List call makes Read retain entries of the answer only, each
    at most once and in the order of the answer: what the call adds to the
    retained entries is a subsequence of the non-nil entries of its pages,
    and nothing retained before is dropped. *)
Theorem listPermissionsOnce_retains_subsequence (conn : Conn)
    (input : ListPermissionsInput.t) (st : readState) :
  ∃ l, principalResourcePermissions (fst (listPermissionsOnce conn input st))
       = principalResourcePermissions st ++ l
       ∧ sublist l
           (nonNilEntries
              (concat (fst (ListPermissionsPages conn
                              (listCalls (readCalls st)) input)))).
Proof.
  unfold listPermissionsOnce.
  destruct (ListPermissionsPages _ _ _) as [pages err]. simpl.
  clear err. revert st.
  induction pages as [|resp pages IH]; intros st.
  - exists []. split; [by rewrite app_nil_r|]. done.
  - cbn [fold_left concat].
    destruct (retainPage_sublist resp st) as (l1 & E1 & S1).
    destruct (IH (retainPage st resp)) as (l2 & E2 & S2).
    exists (l1 ++ l2). split; [by rewrite E2, E1, app_assoc|].
    unfold nonNilEntries in *. rewrite omap_app. by apply sublist_app.
Qed.

Lemma retainEntry_sound (m0 : Resource) (sel0 : option Resource)
    (st : readState) (p : option PrincipalResourcePermissions.t) :
  retainedSound m0 sel0 st → retainedSound m0 sel0 (retainEntry st p).
Proof.
  intros (Hm & Hs & Hf). destruct p as [e|]; [|done].
  unfold retainEntry, retainedSound. rewrite compare_unfold.
  cbv beta iota zeta.
  destruct (Equal (matchResource st) _) eqn:Em.
  - cbn [matchResource selectPermissionsResource principalResourcePermissions].
    rewrite clearCatalogId_defaultFill. split; [done|]. split; [done|].
    apply Forall_app. split; [done|]. constructor; [|done]. left.
    apply Equal_true_cleared in Em as [Em _]. by rewrite <- Em.
  - destruct (selectPermissionsResource st) as [s|] eqn:Es.
    + rewrite compare_unfold. cbv beta iota zeta.
      cbn [matchResource selectPermissionsResource principalResourcePermissions].
      rewrite clearCatalogId_defaultFill. split; [done|].
      split; [simpl; by rewrite clearCatalogId_defaultFill|].
      destruct (Equal s _) eqn:E2; [|done].
      apply Forall_app. split; [done|]. constructor; [|done]. right.
      destruct sel0 as [s0|]; [|done]. exists s0. split; [done|].
      apply Equal_true_cleared in E2 as [E2 _].
      change (Some (clearCatalogId s) = Some (clearCatalogId s0)) in Hs.
      apply (inj Some) in Hs. by rewrite <- E2.
    + cbn [matchResource selectPermissionsResource principalResourcePermissions].
      rewrite clearCatalogId_defaultFill. done.
Qed.

Lemma listPermissionsOnce_sound (conn : Conn) (input : ListPermissionsInput.t)
    (m0 : Resource) (sel0 : option Resource) (st : readState) :
  retainedSound m0 sel0 st →
  retainedSound m0 sel0 (fst (listPermissionsOnce conn input st)).
Proof.
  unfold listPermissionsOnce.
  destruct (ListPermissionsPages _ _ _) as [pages err]. simpl. clear err.
  intros H.
  assert (Hp : retainedSound m0 sel0 (fold_left retainPage pages st)).
  { revert st H. induction pages as [|resp pages IH]; intros st H; [done|].
    cbn [fold_left]. apply IH. unfold retainPage. clear IH.
    revert st H. induction resp as [|p resp IH]; intros st H; [done|].
    cbn [fold_left]. apply IH. by apply retainEntry_sound. }
  exact Hp.
Qed.

Lemma afterAttempts_list_sound (conn : Conn) (input : ListPermissionsInput.t)
    (m0 : Resource) (sel0 : option Resource) (k : nat) (st : readState) :
  retainedSound m0 sel0 st →
  retainedSound m0 sel0
    (afterAttempts k (listPermissionsAttempt conn input) st).
Proof.
  revert st. induction k as [|k IH]; intros st H; [done|].
  simpl. apply IH. unfold listPermissionsAttempt.
  pose proof (listPermissionsOnce_sound conn input m0 sel0 st H) as Ho.
  by destruct (listPermissionsOnce conn input st).
Qed.

(** X14.  Read never retains an entry of another resource: whatever the
    service answers and however many attempts are made, every entry
    retained when the List calls of Read are over has the declared locator
    or the auxiliary locator, catalog ids left aside. *)
Theorem retained_entries_are_of_the_declared_resource (meta : AWSClient)
    (n : nat) (input : ListPermissionsInput.t) (m0 : Resource)
    (sel0 : option Resource) (w : RemoteCalls) (st : readState)
    (err : option error) :
  listPermissionsWithRetry meta n input (mkReadState m0 sel0 [] w) = (st, err) →
  Forall (sameResourceAs m0 sel0) (principalResourcePermissions st).
Proof.
  unfold listPermissionsWithRetry.
  destruct (resource_Retry _ _ _) as [st1 e1] eqn:ER.
  destruct (resource_Retry_state _ _ _ _ _ ER) as (k & _ & ->).
  assert (H0 : retainedSound m0 sel0 (mkReadState m0 sel0 [] w)) by done.
  pose proof (afterAttempts_list_sound (lakeformationconn meta) input
                m0 sel0 k _ H0) as Hk.
  destruct (isResourceTimeoutError e1).
  - intros Ho.
    pose proof (listPermissionsOnce_sound (lakeformationconn meta) input
                  m0 sel0 _ Hk) as Hs.
    rewrite Ho in Hs. by destruct Hs as (_ & _ & Hs).
  - intros [= <- _]. by destruct Hk as (_ & _ & Hk).
Qed.

Lemma retained_entries_are_of_the_declared_resource_witness :
  Forall (sameResourceAs (tableLocator None "db1" "t1")
            (Some (wildcardColumnsLocator None "db1" "t1")))
    [tableEntry; wildcardColumnsEntry].
Proof.
  apply (retained_entries_are_of_the_declared_resource
           (mkAWSClient (listingConn [[Some tableEntry; Some wildcardColumnsEntry]]))
           3 (listPermissionsInput tableRequest (tableLocator None "db1" "t1"))
           (tableLocator None "db1" "t1")
           (Some (wildcardColumnsLocator None "db1" "t1")) noCalls
           (mkReadState (tableLocator (Some "111122223333") "db1" "t1")
              (Some (wildcardColumnsLocator (Some "111122223333") "db1" "t1"))
              [tableEntry; wildcardColumnsEntry] (mkRemoteCalls 0 1 0))
           None).
  vm_compute; reflexivity.
Defined.

Lemma retained_entries_are_the_accepted_ones_witness :
  ∃ st, listPermissionsWithRetry
          (mkAWSClient (listingConn [[Some tableEntry; Some wildcardColumnsEntry]]))
          3 (listPermissionsInput tableRequest (tableLocator None "db1" "t1"))
          (mkReadState (tableLocator None "db1" "t1")
             (Some (wildcardColumnsLocator None "db1" "t1")) [] noCalls)
        = (st, None)
        ∧ principalResourcePermissions st
          = List.filter
              (acceptedBy (tableLocator None "db1" "t1")
                 (Some (wildcardColumnsLocator None "db1" "t1")))
              (nonNilEntries (concat [[Some tableEntry; Some wildcardColumnsEntry]])).
Proof.
  apply (retained_entries_are_the_accepted_ones
           (mkAWSClient (listingConn [[Some tableEntry; Some wildcardColumnsEntry]]))
           3 (listPermissionsInput tableRequest (tableLocator None "db1" "t1"))
           (tableLocator None "db1" "t1")
           (Some (wildcardColumnsLocator None "db1" "t1")) noCalls
           (Some "111122223333")).
  - reflexivity.
  - repeat constructor; intros x [= <-]; reflexivity.
Defined.

(* ===================================================================== *)
(** * More on the retried calls *)
(* ===================================================================== *)

Section RetryOutcome.

Context {St : Type}.
Variable f : St → St * option RetryError.

Lemma resource_Retry_settles (n k : nat) (st st' : St) (r : option error) :
  k < n →
  (∀ i, i < k →
     ∃ e, snd (f (afterAttempts i f st)) = Some (RetryableError e)) →
  f (afterAttempts k f st)
  = (st', match r with Some e => Some (NonRetryableError e) | None => None end) →
  resource_Retry n f st = (st', r).
Proof.
  revert n st. induction k as [|k IH]; intros n st Hk Hretry Hlast.
  - destruct n as [|n]; [lia|]. simpl in *. rewrite Hlast. by destruct r.
  - destruct n as [|n]; [lia|]. simpl.
    destruct (Hretry 0) as [e He]; [lia|]. simpl in He.
    destruct (f st) as [st1 r1] eqn:Ef. simpl in He. subst r1.
    apply IH; [lia| |].
    + intros i Hi. destruct (Hretry (S i)) as [e' He']; [lia|].
      simpl in He'. rewrite Ef in He'. eauto.
    + simpl in Hlast. by rewrite Ef in Hlast.
Qed.

Lemma resource_Retry_attempts (n : nat) (st st' : St) (err : option error) :
  resource_Retry n f st = (st', err) →
  ∃ k, (k ≤ n)%nat ∧ st' = afterAttempts k f st
       ∧ ((1 ≤ k)%nat ∨ err = Some TimeoutError).
Proof.
  revert st. induction n as [|n IH]; intros st H; simpl in H.
  - injection H as <- <-. exists 0. split; [lia|]. split; [done|]. by right.
  - destruct (f st) as [st1 r] eqn:Ef. destruct r as [[e|e]|].
    + destruct (IH _ H) as (k & Hk & -> & _). exists (S k).
      split; [lia|]. split; [simpl; by rewrite Ef|]. left; lia.
    + injection H as <- _. exists 1. split; [lia|].
      split; [simpl; by rewrite Ef|]. left; lia.
    + injection H as <- _. exists 1. split; [lia|].
      split; [simpl; by rewrite Ef|]. left; lia.
Qed.

End RetryOutcome.

Lemma revokePermissionsWithRetry_calls (meta : AWSClient) (n : nat)
    (input : RevokePermissionsInput.t) (w w' : RemoteCalls)
    (err : option error) :
  revokePermissionsWithRetry meta n input w = (w', err) →
  ∃ k, w' = addRevokeCalls k w ∧ (1 ≤ k)%nat ∧ (k ≤ S n)%nat.
Proof.
  unfold revokePermissionsWithRetry.
  destruct (resource_Retry _ _ _) as [w1 e1] eqn:ER.
  destruct (resource_Retry_attempts _ _ _ _ _ ER) as (k & Hk & -> & Hone).
  rewrite afterAttempts_revoke.
  destruct (isResourceTimeoutError e1) eqn:Et.
  - unfold revokePermissionsOnce. intros [= <- _]. exists (S k).
    split; [done|]. lia.
  - intros [= <- _]. exists k. split; [done|].
    destruct Hone as [?| ->]; [lia|done].
Qed.

(** X16.  Delete retries a transient failure until a call succeeds: if the
    first k Revoke calls, k within the budget, fail with errors that are
    classified retryable and the next call succeeds, Delete returns ok after
    exactly k + 1 calls. *)
Theorem Delete_retries_until_success (meta : AWSClient) (n k : nat)
    (d : ResourceData) (w : RemoteCalls) (res : Resource) :
  expandLakeFormationResource d false = Ret res →
  k < n →
  (∀ i, i < k →
     ∃ e, RevokePermissions (lakeformationconn meta) (i + revokeCalls w)
            (revokePermissionsInput d res) = Some e
          ∧ classifyRevokeError (Some e) = Some (RetryableError e)) →
  RevokePermissions (lakeformationconn meta) (k + revokeCalls w)
    (revokePermissionsInput d res) = None →
  resourceAwsLakeFormationPermissionsDelete meta n d w
  = Ret (d, addRevokeCalls (S k) w, None).
Proof.
  intros Hres Hk Hretry Hok.
  unfold resourceAwsLakeFormationPermissionsDelete.
  rewrite Hres; simpl. unfold revokePermissionsWithRetry.
  rewrite (resource_Retry_settles _ n k w (addRevokeCalls (S k) w) None Hk).
  - done.
  - intros i Hi. destruct (Hretry i Hi) as (e & He & Hc). exists e.
    rewrite afterAttempts_revoke.
    unfold revokePermissionsAttempt, revokePermissionsOnce. simpl.
    by rewrite He.
  - rewrite afterAttempts_revoke.
    unfold revokePermissionsAttempt, revokePermissionsOnce. simpl.
    by rewrite Hok.
Qed.

Lemma Delete_retries_until_success_witness :
  resourceAwsLakeFormationPermissionsDelete
    (mkAWSClient concurrentThenOkConn) 3 databaseRequest noCalls
  = Ret (databaseRequest, addRevokeCalls 2 noCalls, None).
Proof.
  apply (Delete_retries_until_success (mkAWSClient concurrentThenOkConn) 3 1
           databaseRequest noCalls (databaseLocator None "db1")).
  - vm_compute; reflexivity.
  - lia.
  - intros i Hi. assert (i = 0) as -> by lia. eexists. split; reflexivity.
  - reflexivity.
Defined.

(** X17.  Delete stops at the first failure that is not transient: if the
    first k Revoke calls, k within the budget, fail with retryable errors
    and the next call fails with an error that is not, Delete returns that
    error, wrapped twice with its context, after exactly k + 1 calls. *)
Theorem Delete_stops_at_terminal_error (meta : AWSClient) (n k : nat)
    (d : ResourceData) (w : RemoteCalls) (res : Resource) (e' e'' : error) :
  expandLakeFormationResource d false = Ret res →
  k < n →
  (∀ i, i < k →
     ∃ e, RevokePermissions (lakeformationconn meta) (i + revokeCalls w)
            (revokePermissionsInput d res) = Some e
          ∧ classifyRevokeError (Some e) = Some (RetryableError e)) →
  RevokePermissions (lakeformationconn meta) (k + revokeCalls w)
    (revokePermissionsInput d res) = Some e' →
  classifyRevokeError (Some e') = Some (NonRetryableError e'') →
  e'' = Wrapf "unable to revoke Lake Formation Permissions" e'
  ∧ resourceAwsLakeFormationPermissionsDelete meta n d w
    = Ret (d, addRevokeCalls (S k) w,
           Some (Wrapf "unable to revoke LakeFormation Permissions (input: %v)"
                   (Wrapf "unable to revoke Lake Formation Permissions" e'))).
Proof.
  intros Hres Hk Hretry Hlast Hclass.
  assert (He'' : e'' = Wrapf "unable to revoke Lake Formation Permissions" e').
  { unfold classifyRevokeError in Hclass.
    repeat case_match; congruence. }
  split; [exact He''|]. subst e''.
  unfold resourceAwsLakeFormationPermissionsDelete.
  rewrite Hres; simpl. unfold revokePermissionsWithRetry.
  rewrite (resource_Retry_settles _ n k w (addRevokeCalls (S k) w)
             (Some (Wrapf "unable to revoke Lake Formation Permissions" e')) Hk).
  - done.
  - intros i Hi. destruct (Hretry i Hi) as (e & He & Hc). exists e.
    rewrite afterAttempts_revoke.
    unfold revokePermissionsAttempt, revokePermissionsOnce. simpl.
    by rewrite He.
  - rewrite afterAttempts_revoke.
    unfold revokePermissionsAttempt, revokePermissionsOnce. simpl.
    by rewrite Hlast, Hclass.
Qed.

Lemma Delete_stops_at_terminal_error_witness :
  resourceAwsLakeFormationPermissionsDelete
    (mkAWSClient absentGrantConn) 3 databaseRequest noCalls
  = Ret (databaseRequest, addRevokeCalls 1 noCalls,
         Some (Wrapf "unable to revoke LakeFormation Permissions (input: %v)"
                 (Wrapf "unable to revoke Lake Formation Permissions"
                    (awsError ErrCodeEntityNotFoundException "Entity not found")))).
Proof.
  apply (Delete_stops_at_terminal_error (mkAWSClient absentGrantConn) 3 0
           databaseRequest noCalls (databaseLocator None "db1")
           (awsError ErrCodeEntityNotFoundException "Entity not found")
           (Wrapf "unable to revoke Lake Formation Permissions"
              (awsError ErrCodeEntityNotFoundException "Entity not found"))).
  - vm_compute; reflexivity.
  - lia.
  - intros i Hi. lia.
  - reflexivity.
  - reflexivity.
Defined.

(** X18.  Delete touches nothing but Revoke: whatever it returns, the
    request is returned as it was, no Grant and no List call has been made,
    and between one and budget + 1 Revoke calls have been. *)
Theorem Delete_frame (meta : AWSClient) (n : nat) (d d' : ResourceData)
    (w w' : RemoteCalls) (err : option error) :
  resourceAwsLakeFormationPermissionsDelete meta n d w = Ret (d', w', err) →
  d' = d
  ∧ grantCalls w' = grantCalls w
  ∧ listCalls w' = listCalls w
  ∧ revokeCalls w < revokeCalls w'
  ∧ (revokeCalls w' ≤ S n + revokeCalls w)%nat.
Proof.
  unfold resourceAwsLakeFormationPermissionsDelete.
  destruct (expandLakeFormationResource d false) as [res|]; [|done]. simpl.
  destruct (revokePermissionsWithRetry _ _ _ _) as [w1 e1] eqn:ER.
  destruct (revokePermissionsWithRetry_calls _ _ _ _ _ _ ER)
    as (k & -> & Hk1 & Hk2).
  unfold deleteOutcome. destruct e1; intros [= <- <- _]; simpl;
    repeat split; try done; lia.
Qed.

Lemma Delete_frame_witness :
  databaseRequest = databaseRequest
  ∧ grantCalls (addRevokeCalls 2 noCalls) = grantCalls noCalls
  ∧ listCalls (addRevokeCalls 2 noCalls) = listCalls noCalls
  ∧ revokeCalls noCalls < revokeCalls (addRevokeCalls 2 noCalls)
  ∧ (revokeCalls (addRevokeCalls 2 noCalls) ≤ 4 + revokeCalls noCalls)%nat.
Proof.
  apply (Delete_frame (mkAWSClient concurrentThenOkConn) 3
           databaseRequest databaseRequest noCalls (addRevokeCalls 2 noCalls)
           None).
  vm_compute; reflexivity.
Defined.

Lemma listPermissionsWithRetry_calls (meta : AWSClient) (n : nat)
    (input : ListPermissionsInput.t) (st0 st : readState)
    (err : option error) :
  listPermissionsWithRetry meta n input st0 = (st, err) →
  ∃ k, readCalls st = addListCalls k (readCalls st0)
       ∧ (1 ≤ k)%nat ∧ (k ≤ S n)%nat.
Proof.
  unfold listPermissionsWithRetry.
  destruct (resource_Retry _ _ _) as [st1 e1] eqn:ER.
  destruct (resource_Retry_attempts _ _ _ _ _ ER) as (k & Hk & -> & Hone).
  pose proof (afterAttempts_list (lakeformationconn meta) input k st0) as Hc.
  destruct (isResourceTimeoutError e1) eqn:Et.
  - intros Ho.
    pose proof (listPermissionsOnce_readCalls (lakeformationconn meta) input
                  (afterAttempts k
                     (listPermissionsAttempt (lakeformationconn meta) input)
                     st0)) as Hn.
    rewrite Ho in Hn. simpl in Hn. exists (S k). rewrite Hn, Hc.
    split; [done|]. lia.
  - intros [= <- _]. exists k. split; [done|].
    destruct Hone as [?| ->]; [lia|done].
Qed.

Lemma grantPermissionsWithRetry_calls (meta : AWSClient) (n : nat)
    (input : GrantPermissionsInput.t) (w w1 : RemoteCalls)
    (output : option GrantPermissionsOutput) (err : option error) :
  grantPermissionsWithRetry meta n input w = ((w1, output), err) →
  ∃ k, w1 = addGrantCalls k w ∧ (1 ≤ k)%nat ∧ (k ≤ S n)%nat.
Proof.
  unfold grantPermissionsWithRetry.
  destruct (resource_Retry _ _ _) as [st1 e1] eqn:ER.
  destruct (resource_Retry_attempts _ _ _ _ _ ER) as (k & Hk & -> & Hone).
  pose proof (afterAttempts_grant (lakeformationconn meta) input k (w, None))
    as Hc. simpl in Hc.
  destruct (isResourceTimeoutError e1) eqn:Et.
  - unfold grantPermissionsOnce.
    destruct (GrantPermissions _ _ _) as [o e]. intros [= <- _ _].
    rewrite Hc. exists (S k). split; [done|]. lia.
  - intros Heq. injection Heq as Hst <-. rewrite Hst in Hc. simpl in Hc.
    exists k. split; [done|].
    destruct Hone as [?| ->]; [lia|done].
Qed.

Lemma setLocatorFields_frame (r : Resource) (d : ResourceData) :
  Id (setLocatorFields r d) = Id d
  ∧ IsNewResource (setLocatorFields r d) = IsNewResource d
  ∧ catalog_id (setLocatorFields r d) = catalog_id d
  ∧ principal (setLocatorFields r d) = principal d.
Proof. by destruct r as [[c|] [o1|] [o2|] [o3|] [o4|]]. Qed.

Lemma readOutcome_frame (d d' : ResourceData) (st : readState)
    (e err : option error) (w' : RemoteCalls) :
  readOutcome d (st, e) = (d', w', err) →
  (err ≠ None → d' = d)
  ∧ catalog_id d' = catalog_id d
  ∧ IsNewResource d' = IsNewResource d
  ∧ (Id d' = Id d ∨ (d' = SetId "" d ∧ IsNewResource d = false)).
Proof.
  unfold readOutcome.
  destruct (negb (IsNewResource d) && ErrCodeEquals e _) eqn:Enf.
  - intros [= <- _ <-]. apply andb_true_iff in Enf as [Hnew _].
    apply negb_true_iff in Hnew. repeat split; try done. by right.
  - destruct e as [e|]; [intros [= <- _ <-]; repeat split; auto|].
    destruct (principalResourcePermissions st) as [|first rest];
      [intros [= <- _ <-]; repeat split; auto|].
    destruct (Nat.ltb _ _); [intros [= <- _ <-]; repeat split; auto|].
    intros [= <- _ <-].
    rewrite (proj1 (setLocatorFields_frame _ _)),
      (proj1 (proj2 (setLocatorFields_frame _ _))),
      (proj1 (proj2 (proj2 (setLocatorFields_frame _ _)))).
    repeat split; try done. by left.
Qed.

Lemma Read_bounds_and_frame (meta : AWSClient) (n : nat) (d d' : ResourceData)
    (w w' : RemoteCalls) (err : option error) :
  resourceAwsLakeFormationPermissionsRead meta n d w = Ret (d', w', err) →
  grantCalls w' = grantCalls w
  ∧ revokeCalls w' = revokeCalls w
  ∧ listCalls w < listCalls w'
  ∧ (listCalls w' ≤ S n + listCalls w)%nat
  ∧ (err ≠ None → d' = d)
  ∧ catalog_id d' = catalog_id d
  ∧ IsNewResource d' = IsNewResource d
  ∧ (Id d' = Id d ∨ (d' = SetId "" d ∧ IsNewResource d = false)).
Proof.
  intros HR. destruct (Read_other_calls _ _ _ _ _ _ _ HR) as [Hg Hr].
  split; [exact Hg|]. split; [exact Hr|].
  unfold resourceAwsLakeFormationPermissionsRead in HR.
  destruct (expandLakeFormationResource d true) as [r1|]; [|done].
  destruct (expandLakeFormationResource d false) as [r2|]; [|done].
  destruct (expandLakeFormationResourceForSelectPermissions d) as [sel|];
    [|done].
  simpl in HR. injection HR as HR.
  destruct (listPermissionsWithRetry _ _ _ _) as [st e] eqn:EL.
  destruct (listPermissionsWithRetry_calls _ _ _ _ _ _ EL)
    as (k & Hc & Hk1 & Hk2). simpl in Hc.
  pose proof (readOutcome_calls d st e) as Hw. rewrite HR in Hw.
  simpl in Hw. subst w'. rewrite Hc. simpl.
  split; [lia|]. split; [lia|].
  by apply (readOutcome_frame d d' st e err _ HR).
Qed.

(** X19.  Read touches nothing but List, and writes the request only when
    it succeeds: whatever it returns, no Grant and no Revoke call has been
    made and between one and budget + 1 List calls have been; when it
    returns an error the request is returned as it was; the catalog id and
    the new-resource flag are never changed; and the stored handle is either
    kept or, on a resource that is not new, cleared with nothing else
    changed. *)
Theorem Read_frame (meta : AWSClient) (n : nat) (d d' : ResourceData)
    (w w' : RemoteCalls) (err : option error) :
  resourceAwsLakeFormationPermissionsRead meta n d w = Ret (d', w', err) →
  grantCalls w' = grantCalls w
  ∧ revokeCalls w' = revokeCalls w
  ∧ listCalls w < listCalls w'
  ∧ (listCalls w' ≤ S n + listCalls w)%nat
  ∧ (err ≠ None → d' = d)
  ∧ catalog_id d' = catalog_id d
  ∧ IsNewResource d' = IsNewResource d
  ∧ (Id d' = Id d ∨ (d' = SetId "" d ∧ IsNewResource d = false)).
Proof. apply Read_bounds_and_frame. Qed.

Lemma Read_frame_witness :
  grantCalls (mkRemoteCalls 0 2 0) = grantCalls noCalls
  ∧ revokeCalls (mkRemoteCalls 0 2 0) = revokeCalls noCalls
  ∧ listCalls noCalls < listCalls (mkRemoteCalls 0 2 0)
  ∧ (listCalls (mkRemoteCalls 0 2 0) ≤ 2 + listCalls noCalls)%nat
  ∧ (Some (Errorf "error reading Lake Formation permissions: no permissions found")
     ≠ None → tableRequest = tableRequest)
  ∧ catalog_id tableRequest = catalog_id tableRequest
  ∧ IsNewResource tableRequest = IsNewResource tableRequest
  ∧ (Id tableRequest = Id tableRequest
     ∨ (tableRequest = SetId "" tableRequest
        ∧ IsNewResource tableRequest = false)).
Proof.
  apply (Read_frame (mkAWSClient invalidPrincipalThenEmptyConn) 1
           tableRequest tableRequest noCalls (mkRemoteCalls 0 2 0)
           (Some (Errorf "error reading Lake Formation permissions: no permissions found"))).
  vm_compute; reflexivity.
Defined.

(** X20.  Create touches Grant and List only and never reports success
    without reading the grant back: whatever it returns, no Revoke call has
    been made, between one and budget + 1 Grant calls have been, at most
    budget + 1 List calls; when it returns ok at least one List call has
    been made; and when no List call has been made the request is returned
    as it was, the handle not stored. *)
Theorem Create_frame (meta : AWSClient) (n : nat)
    (handle : GrantPermissionsInput.t → string) (d d' : ResourceData)
    (w w' : RemoteCalls) (err : option error) :
  resourceAwsLakeFormationPermissionsCreate meta n handle d w
  = Ret (d', w', err) →
  revokeCalls w' = revokeCalls w
  ∧ grantCalls w < grantCalls w'
  ∧ (grantCalls w' ≤ S n + grantCalls w)%nat
  ∧ (listCalls w' ≤ S n + listCalls w)%nat
  ∧ (err = None → listCalls w < listCalls w')
  ∧ (listCalls w' = listCalls w → d' = d).
Proof.
  unfold resourceAwsLakeFormationPermissionsCreate.
  destruct (expandLakeFormationResource d false) as [res|]; [|done]. simpl.
  destruct (grantPermissionsWithRetry _ _ _ _) as [[w1 output] e1] eqn:EG.
  destruct (grantPermissionsWithRetry_calls _ _ _ _ _ _ _ EG)
    as (k & -> & Hk1 & Hk2).
  unfold createOutcome. destruct e1 as [e|].
  - intros [= <- <- <-]. simpl. repeat split; try done; lia.
  - destruct output as [o|].
    + intros HR. apply Read_bounds_and_frame in HR
        as (Hg & Hr & Hl1 & Hl2 & _). simpl in *.
      rewrite Hg, Hr. repeat split; try done; lia.
    + intros [= <- <- <-]. simpl. repeat split; try done; lia.
Qed.

Lemma Create_frame_witness :
  revokeCalls (mkRemoteCalls 1 0 0) = revokeCalls noCalls
  ∧ grantCalls noCalls < grantCalls (mkRemoteCalls 1 0 0)
  ∧ (grantCalls (mkRemoteCalls 1 0 0) ≤ 2 + grantCalls noCalls)%nat
  ∧ (listCalls (mkRemoteCalls 1 0 0) ≤ 2 + listCalls noCalls)%nat
  ∧ (Some (Errorf "error creating Lake Formation Permissions: empty response")
     = None → listCalls noCalls < listCalls (mkRemoteCalls 1 0 0))
  ∧ (listCalls (mkRemoteCalls 1 0 0) = listCalls noCalls →
     databaseRequest = databaseRequest).
Proof.
  apply (Create_frame
           (mkAWSClient
              (mkConn (fun _ _ => (None, None)) (fun _ _ => ([], None))
                 (fun _ _ => None)))
           1 (fun _ => "handle") databaseRequest databaseRequest noCalls
           (mkRemoteCalls 1 0 0)
           (Some (Errorf "error creating Lake Formation Permissions: empty response"))).
  vm_compute; reflexivity.
Defined.

(** X21.  Create retries a transient failure until a Grant call succeeds
    and then reads the grant back: if the first k Grant calls, k within the
    budget, fail with errors that are classified retryable and the next
    call returns a response without error, Create stores the handle
    computed from the request it sent and returns what Read returns,
    started after exactly k + 1 Grant calls. *)
Theorem Create_retries_until_success (meta : AWSClient) (n k : nat)
    (handle : GrantPermissionsInput.t → string) (d : ResourceData)
    (w : RemoteCalls) (res : Resource) (output : GrantPermissionsOutput) :
  expandLakeFormationResource d false = Ret res →
  k < n →
  (∀ i, i < k →
     ∃ e, snd (GrantPermissions (lakeformationconn meta) (i + grantCalls w)
                 (grantPermissionsInput d res)) = Some e
          ∧ classifyGrantError (Some e) = Some (RetryableError e)) →
  GrantPermissions (lakeformationconn meta) (k + grantCalls w)
    (grantPermissionsInput d res) = (Some output, None) →
  resourceAwsLakeFormationPermissionsCreate meta n handle d w
  = resourceAwsLakeFormationPermissionsRead meta n
      (SetId (handle (grantPermissionsInput d res)) d)
      (addGrantCalls (S k) w).
Proof.
  intros Hres Hk Hretry Hok.
  unfold resourceAwsLakeFormationPermissionsCreate.
  rewrite Hres; simpl. unfold grantPermissionsWithRetry.
  rewrite (resource_Retry_settles _ n k (w, None)
             (addGrantCalls (S k) w, Some output) None Hk).
  - done.
  - intros i Hi. destruct (Hretry i Hi) as (e & He & Hc). exists e.
    pose proof (afterAttempts_grant (lakeformationconn meta)
                  (grantPermissionsInput d res) i (w, None)) as Hw.
    destruct (afterAttempts i _ _) as [w1 o1]. simpl in Hw. subst w1.
    unfold grantPermissionsAttempt, grantPermissionsOnce.
    cbn [fst grantCalls addGrantCalls].
    destruct (GrantPermissions (lakeformationconn meta) (i + grantCalls w)
                (grantPermissionsInput d res)) as [out2 err2].
    cbn [snd] in *. by rewrite He.
  - pose proof (afterAttempts_grant (lakeformationconn meta)
                  (grantPermissionsInput d res) k (w, None)) as Hw.
    destruct (afterAttempts k _ _) as [w1 o1]. simpl in Hw. subst w1.
    unfold grantPermissionsAttempt, grantPermissionsOnce.
    cbn [fst grantCalls addGrantCalls].
    rewrite Hok. reflexivity.
Qed.

Lemma Create_retries_until_success_witness :
  resourceAwsLakeFormationPermissionsCreate
    (mkAWSClient concurrentThenOkConn) 3 (fun _ => "handle")
    databaseRequest noCalls
  = resourceAwsLakeFormationPermissionsRead
      (mkAWSClient concurrentThenOkConn) 3
      (SetId "handle" databaseRequest) (addGrantCalls 2 noCalls).
Proof.
  apply (Create_retries_until_success (mkAWSClient concurrentThenOkConn) 3 1
           (fun _ => "handle") databaseRequest noCalls
           (databaseLocator None "db1") mkGrantPermissionsOutput).
  - vm_compute; reflexivity.
  - lia.
  - intros i Hi. assert (i = 0) as -> by lia. eexists. split; reflexivity.
  - reflexivity.
Defined.

(** X22.  Create retries every failure that Delete or Read retries: an
    error classified retryable for a Revoke call or for a List call is
    classified retryable for a Grant call. *)
Theorem Create_retries_what_Delete_and_Read_retry (e : error) :
  (classifyRevokeError (Some e) = Some (RetryableError e) →
   classifyGrantError (Some e) = Some (RetryableError e))
  ∧ (classifyListError (Some e) = Some (RetryableError e) →
     classifyGrantError (Some e) = Some (RetryableError e)).
Proof.
  unfold classifyRevokeError, classifyListError, classifyGrantError.
  split; intros H; repeat case_match; congruence.
Qed.

(** X23.  After a successful Read, expanding the request as the next Create,
    Read or Delete will do gives the locator of the first retained entry,
    catalog id included, and the principal of the request is that entry's:
    this holds when that locator has exactly one populated object, which
    survives flattening, when the catalog flag of the request is off unless
    the locator is the catalog, and, for a table-with-columns locator, when
    the request has no table block. *)
Theorem Read_then_expand (meta : AWSClient) (n : nat) (d : ResourceData)
    (w : RemoteCalls) (inputResource matchRes : Resource)
    (sel : option Resource) (st : readState)
    (first : PrincipalResourcePermissions.t)
    (rest : list PrincipalResourcePermissions.t) (t : DataLakeResourceType) :
  expandLakeFormationResource d true = Ret inputResource →
  expandLakeFormationResource d false = Ret matchRes →
  expandLakeFormationResourceForSelectPermissions d = Ret sel →
  listPermissionsWithRetry meta n (listPermissionsInput d inputResource)
    (mkReadState matchRes sel [] w) = (st, None) →
  principalResourcePermissions st = first :: rest →
  (length rest ≤ 1)%nat →
  populatedFields (PrincipalResourcePermissions.Resource_ first) = [t] →
  locatorSurvivesFlatten (PrincipalResourcePermissions.Resource_ first) →
  (t ≠ DataLakeResourceTypeCatalog → catalog_resource d = false) →
  (t = DataLakeResourceTypeTableWithColumns → blockPresent (table d) = false) →
  ∃ d', resourceAwsLakeFormationPermissionsRead meta n d w
        = Ret (d', readCalls st, None)
        ∧ expandLakeFormationResource d' false
          = Ret (PrincipalResourcePermissions.Resource_ first)
        ∧ principal d'
          = default "" (DataLakePrincipalIdentifier
                          (PrincipalResourcePermissions.Principal first)).
Proof.
  intros H1 H2 H3 HL Hp Hlen Hpop Hsurv Hcat Htab.
  unfold resourceAwsLakeFormationPermissionsRead.
  rewrite H1, H2, H3; simpl. rewrite HL. unfold readOutcome.
  simpl. rewrite andb_false_r, Hp.
  replace (Nat.ltb 2 (length (first :: rest))) with false
    by (symmetry; apply Nat.ltb_ge; simpl; lia).
  eexists. split; [reflexivity|]. split.
  - by apply (setLocatorFields_then_expand _ _ t).
  - by rewrite (proj2 (proj2 (proj2 (setLocatorFields_frame _ _)))).
Qed.

Lemma Read_then_expand_witness :
  ∃ d', resourceAwsLakeFormationPermissionsRead
          (mkAWSClient (listingConn [[Some tableEntry]])) 3 tableRequest noCalls
        = Ret (d', mkRemoteCalls 0 1 0, None)
        ∧ expandLakeFormationResource d' false
          = Ret (tableLocator (Some "111122223333") "db1" "t1")
        ∧ principal d' = "role/X".
Proof.
  apply (Read_then_expand (mkAWSClient (listingConn [[Some tableEntry]])) 3
           tableRequest noCalls (tableLocator None "db1" "t1")
           (tableLocator None "db1" "t1")
           (Some (wildcardColumnsLocator None "db1" "t1"))
           (mkReadState (tableLocator (Some "111122223333") "db1" "t1")
              (Some (wildcardColumnsLocator None "db1" "t1"))
              [tableEntry] (mkRemoteCalls 0 1 0))
           tableEntry [] DataLakeResourceTypeTable).
  - vm_compute; reflexivity.
  - vm_compute; reflexivity.
  - vm_compute; reflexivity.
  - vm_compute; reflexivity.
  - reflexivity.
  - simpl; lia.
  - reflexivity.
  - repeat split; try done; injection H as <-; simpl; discriminate.
  - reflexivity.
  - discriminate.
Defined.

Lemma Create_retries_what_Delete_and_Read_retry_witness :
  classifyGrantError
    (Some (awsError ErrCodeConcurrentModificationException "conflict"))
  = Some (RetryableError
            (awsError ErrCodeConcurrentModificationException "conflict")).
Proof.
  apply (proj1 (Create_retries_what_Delete_and_Read_retry
                  (awsError ErrCodeConcurrentModificationException "conflict"))).
  reflexivity.
Defined.
